(** * String Analyzer API: a shallow embedding of [src/index.ts]

    The service keeps an in-memory [Map] of analysed strings and answers five
    routes.  Every handler is embedded as a function from the store and the
    request parameters to a response (and, for [POST /strings], a new store).

    JavaScript strings are sequences of UTF-16 code units; the embedding keeps
    them as [list Z], so that [value.length], [split('')], [includes] and the
    regular expressions work on code units, while [for (const char of value)]
    and [new Set(value)] walk the string by code point, as the language does. *)

From stdpp Require Import base numbers list gmap strings fin_maps fin_map_dom.

Local Open Scope Z_scope.

(** ** JavaScript strings *)

(** A string value: its UTF-16 code units, each in [0, 0xFFFF]. *)
Abbreviation jsstring := (list Z).

(** A string literal of the source (all of them are ASCII). *)
Definition lit (s : string) : jsstring :=
  map (λ a, Z.of_N (Ascii.N_of_ascii a)) (String.list_ascii_of_string s).

Definition is_high_surrogate (u : Z) : bool := (0xD800 <=? u) && (u <=? 0xDBFF).
Definition is_low_surrogate (u : Z) : bool := (0xDC00 <=? u) && (u <=? 0xDFFF).
Definition is_surrogate (u : Z) : bool := (0xD800 <=? u) && (u <=? 0xDFFF).

(** The string iterator ([for ... of], [new Set(value)]): one element per
    code point, a surrogate pair kept together, a lone surrogate on its own. *)
Fixpoint code_points (s : jsstring) : list jsstring :=
  match s with
  | [] => []
  | u :: rest =>
      match rest with
      | l :: rest' =>
          if is_high_surrogate u && is_low_surrogate l
          then [u; l] :: code_points rest'
          else [u] :: code_points rest
      | [] => [[u]]
      end
  end.

(** [value.split('')]: one element per code unit. *)
Definition split_units (s : jsstring) : list jsstring := map (λ u, [u]) s.

(** [parts.join('')]. *)
Definition join (parts : list jsstring) : jsstring := concat parts.

(** [WhiteSpace] and [LineTerminator] of ECMAScript: what [trim], [\s] and
    [parseInt] skip. *)
Definition is_whitespace (u : Z) : bool :=
  ((0x09 <=? u) && (u <=? 0x0D)) || (u =? 0x20) || (u =? 0xA0) || (u =? 0x1680)
  || ((0x2000 <=? u) && (u <=? 0x200A)) || (u =? 0x2028) || (u =? 0x2029)
  || (u =? 0x202F) || (u =? 0x205F) || (u =? 0x3000) || (u =? 0xFEFF).

Fixpoint trimStart (s : jsstring) : jsstring :=
  match s with
  | u :: rest => if is_whitespace u then trimStart rest else s
  | [] => []
  end.

(** [value.trim()]. *)
Definition trim (s : jsstring) : jsstring := rev (trimStart (rev (trimStart s))).

(** [s.split(/\s+/)]: the pieces between maximal runs of white space; a run
    at either end of the string leaves an empty piece there.  [in_run] says
    that the previous unit was white space, [cur] is the piece being read,
    last unit first. *)
Fixpoint split_ws_go (in_run : bool) (cur : jsstring) (s : jsstring) : list jsstring :=
  match s with
  | [] => [rev cur]
  | u :: rest =>
      if is_whitespace u
      then (if in_run then split_ws_go true [] rest
            else rev cur :: split_ws_go true [] rest)
      else split_ws_go false (u :: cur) rest
  end.

Definition split_ws (s : jsstring) : list jsstring := split_ws_go false [] s.

Fixpoint starts_with (pat s : jsstring) : bool :=
  match pat, s with
  | [], _ => true
  | p :: pat', u :: s' => (p =? u) && starts_with pat' s'
  | _ :: _, [] => false
  end.

(** [s.includes(pat)]: [pat] occurs in [s] as a run of code units. *)
Fixpoint includes (s pat : jsstring) : bool :=
  starts_with pat s ||
  match s with
  | [] => false
  | _ :: s' => includes s' pat
  end.

(** ** JavaScript numbers

    Every number the handlers compute is an integer, an infinity or [NaN].
    Integers are kept as [Z], rounded to the nearest double (ties to even)
    where the source parses or adds. *)
Inductive number : Set :=
| NaN
| Finite (z : Z)
| PosInfinity
| NegInfinity.

Global Instance number_eq_dec : EqDecision number.
Proof. solve_decision. Defined.

(** The double nearest to the natural number [n]. *)
Definition round_nat_to_double (n : Z) : number :=
  if n <? 2 ^ 53 then Finite n
  else
    let e := Z.log2 n - 52 in
    let q := Z.shiftr n e in
    let r := Z.land n (Z.ones e) in
    let half := 2 ^ (e - 1) in
    let q' := if (half <? r) || ((r =? half) && Z.odd q) then q + 1 else q in
    if 2 ^ 1024 <=? q' * 2 ^ e then PosInfinity else Finite (q' * 2 ^ e).

Definition number_neg (x : number) : number :=
  match x with
  | NaN => NaN
  | Finite z => Finite (- z)
  | PosInfinity => NegInfinity
  | NegInfinity => PosInfinity
  end.

Definition to_double (z : Z) : number :=
  if z <? 0 then number_neg (round_nat_to_double (- z)) else round_nat_to_double z.

(** [x + y]. *)
Definition number_add (x y : number) : number :=
  match x, y with
  | NaN, _ | _, NaN => NaN
  | Finite a, Finite b => to_double (a + b)
  | PosInfinity, NegInfinity | NegInfinity, PosInfinity => NaN
  | PosInfinity, _ | _, PosInfinity => PosInfinity
  | NegInfinity, _ | _, NegInfinity => NegInfinity
  end.

(** [x <= y]; a comparison with [NaN] is false. *)
Definition number_le (x y : number) : bool :=
  match x, y with
  | NaN, _ | _, NaN => false
  | NegInfinity, _ | _, PosInfinity => true
  | _, NegInfinity | PosInfinity, _ => false
  | Finite a, Finite b => a <=? b
  end.

(** [x >= y]. *)
Definition number_ge (x y : number) : bool := number_le y x.

(** [x === y] on numbers. *)
Definition number_strict_eq (x y : number) : bool :=
  match x, y with
  | NaN, _ | _, NaN => false
  | _, _ => bool_decide (x = y)
  end.

Definition isNaN (x : number) : bool :=
  match x with NaN => true | _ => false end.

(** A count held by a record (a length, a number of words): always exact. *)
Definition number_of_nat (n : nat) : number := Finite (Z.of_nat n).

Definition is_digit (u : Z) : bool := (0x30 <=? u) && (u <=? 0x39).

Fixpoint take_digits (s : jsstring) : jsstring :=
  match s with
  | u :: rest => if is_digit u then u :: take_digits rest else []
  | [] => []
  end.

Fixpoint drop_digits (s : jsstring) : jsstring :=
  match s with
  | u :: rest => if is_digit u then drop_digits rest else s
  | [] => []
  end.

(** The integer a run of decimal digits denotes. *)
Definition digits_value (ds : jsstring) : Z :=
  fold_left (λ acc d, 10 * acc + (d - 0x30)) ds 0.

(** [parseInt(s, 10)]: white space is skipped, a sign is read, then the
    longest run of decimal digits; whatever follows is ignored, and no digit
    at all gives [NaN]. *)
Definition parseInt (s : jsstring) : number :=
  let s1 := trimStart s in
  let '(negative, s2) :=
    match s1 with
    | u :: rest =>
        if u =? 0x2D then (true, rest)
        else if u =? 0x2B then (false, rest)
        else (false, s1)
    | [] => (false, s1)
    end in
  match take_digits s2 with
  | [] => NaN
  | ds =>
      let n := round_nat_to_double (digits_value ds) in
      if negative then number_neg n else n
  end.

(** ** The runtime

    Two library functions the source calls are taken as given: the Unicode
    lower-casing of [String.prototype.toLowerCase] and the hex digest of
    [crypto.createHash('sha256')].  The only fact about them the development
    relies on is that lower-casing the empty string gives the empty string. *)
Class Runtime := {
  toLowerCase : jsstring → jsstring;
  sha256_hex : jsstring → jsstring;
  toLowerCase_empty : toLowerCase [] = [];
}.

(** ** The data model *)

Module StringProperties.
Record t := mk {
  length : nat;
  is_palindrome : bool;
  unique_characters : nat;
  word_count : nat;
  sha256_hash : jsstring;
  character_frequency_map : gmap jsstring nat;
}.
End StringProperties.

Module StoredString.
Record t := mk {
  id : jsstring;
  value : jsstring;
  properties : StringProperties.t;
  created_at : Z;
}.
End StoredString.

(** [stringStore]: a [Map] from the digest to the record.  A [Map] lists its
    entries in insertion order, so it is kept as an association list with at
    most one entry per key. *)
Abbreviation Store := (list (jsstring * StoredString.t)).

Fixpoint Map_get (m : Store) (k : jsstring) : option StoredString.t :=
  match m with
  | [] => None
  | (k', v) :: m' => if bool_decide (k' = k) then Some v else Map_get m' k
  end.

Definition Map_has (m : Store) (k : jsstring) : bool :=
  match Map_get m k with Some _ => true | None => false end.

(** [m.set(k, v)]: an existing key keeps its place, a new one goes last. *)
Fixpoint Map_set (m : Store) (k : jsstring) (v : StoredString.t) : Store :=
  match m with
  | [] => [(k, v)]
  | (k', v') :: m' =>
      if bool_decide (k' = k) then (k', v) :: m' else (k', v') :: Map_set m' k v
  end.

Fixpoint Map_delete (m : Store) (k : jsstring) : Store :=
  match m with
  | [] => []
  | (k', v') :: m' =>
      if bool_decide (k' = k) then m' else (k', v') :: Map_delete m' k
  end.

(** [Array.from(m.values())]. *)
Definition Map_values (m : Store) : list StoredString.t := map snd m.

(** ** [analyzeString] *)

(** One turn of the loop over the code points:
    [map[char] = (map[char] || 0) + 1]. *)
Definition count_char (m : gmap jsstring nat) (char : jsstring) : gmap jsstring nat :=
  <[char := (default 0 (m !! char) + 1)%nat]> m.

Section Analyzer.
Context `{Runtime}.

Definition analyzeString (value : jsstring) : StringProperties.t :=
  let length := List.length value in
  let is_palindrome :=
    let lowerValue := toLowerCase value in
    bool_decide (lowerValue = join (rev (split_units lowerValue))) in
  let unique_characters := size (list_to_set (code_points value) : gset jsstring) in
  let word_count :=
    List.length (List.filter (λ word, (0 <? List.length word)%nat) (split_ws (trim value))) in
  let sha256_hash := sha256_hex value in
  let character_frequency_map := fold_left count_char (code_points value) ∅ in
  StringProperties.mk length is_palindrome unique_characters word_count
    sha256_hash character_frequency_map.
End Analyzer.

(** The sum of the values of a frequency map. *)
Definition sum_values (m : gmap jsstring nat) : nat :=
  map_fold (λ _ n acc, (n + acc)%nat) 0%nat m.

(** ** Requests and responses *)

(** The double quote that two of the error texts contain. *)
Definition dquote : string := String (Ascii.ascii_of_nat 34) EmptyString.

(** What a handler passes to [res.json] (or [res.send]). *)
Module FiltersApplied.
Record t := mk {
  is_palindrome : option bool;
  min_length : option number;
  max_length : option number;
  word_count : option number;
  contains_character : option jsstring;
}.
Definition empty : t := mk None None None None None.
Definition set_is_palindrome (v : bool) (f : t) : t :=
  mk (Some v) (min_length f) (max_length f) (word_count f) (contains_character f).
Definition set_min_length (v : number) (f : t) : t :=
  mk (is_palindrome f) (Some v) (max_length f) (word_count f) (contains_character f).
Definition set_max_length (v : number) (f : t) : t :=
  mk (is_palindrome f) (min_length f) (Some v) (word_count f) (contains_character f).
Definition set_word_count (v : number) (f : t) : t :=
  mk (is_palindrome f) (min_length f) (max_length f) (Some v) (contains_character f).
Definition set_contains_character (v : jsstring) (f : t) : t :=
  mk (is_palindrome f) (min_length f) (max_length f) (word_count f) (Some v).
(** [Object.keys(filtersApplied).length > 0]. *)
Definition has_keys (f : t) : bool :=
  match f with
  | mk None None None None None => false
  | _ => true
  end.
End FiltersApplied.

Module ParsedFilters.
Record t := mk {
  word_count : option number;
  is_palindrome : option bool;
  contains_character : option jsstring;
  min_length : option number;
}.
Definition empty : t := mk None None None None.
Definition set_word_count (v : number) (f : t) : t :=
  mk (Some v) (is_palindrome f) (contains_character f) (min_length f).
Definition set_is_palindrome (v : bool) (f : t) : t :=
  mk (word_count f) (Some v) (contains_character f) (min_length f).
Definition set_contains_character (v : jsstring) (f : t) : t :=
  mk (word_count f) (is_palindrome f) (Some v) (min_length f).
Definition set_min_length (v : number) (f : t) : t :=
  mk (word_count f) (is_palindrome f) (contains_character f) (Some v).
End ParsedFilters.

Module InterpretedQuery.
Record t := mk {
  original : jsstring;
  parsed_filters : ParsedFilters.t;
}.
End InterpretedQuery.

Inductive body :=
| ErrorBody (error : string)
| RecordBody (record : StoredString.t)
| ListBody (data : list StoredString.t) (count : nat)
    (filters_applied : option FiltersApplied.t)
| InterpretedBody (data : list StoredString.t) (count : nat)
    (interpreted_query : InterpretedQuery.t)
| NoBody.

Record response := Response { status : Z; payload : body }.

(** The [data] field of a response, when it has one. *)
Definition response_data (r : response) : option (list StoredString.t) :=
  match payload r with
  | ListBody data _ _ | InterpretedBody data _ _ => Some data
  | _ => None
  end.

(** A field of a JSON request body. *)
Inductive jsvalue :=
| JUndefined
| JNull
| JBoolean (b : bool)
| JNumber (n : number)
| JString (s : jsstring)
| JObject.

(** A parameter of [req.query]: absent, a string, or (for a repeated or
    bracketed parameter) an array or an object. *)
Inductive qvalue :=
| QUndefined
| QString (s : jsstring)
| QArray (items : list jsstring)
| QObject.

(** The query parameters [GET /strings] reads; the handler takes every one
    of them [as string]. *)
Module StringsQuery.
Record t := mk {
  is_palindrome : option jsstring;
  min_length : option jsstring;
  max_length : option jsstring;
  word_count : option jsstring;
  contains_character : option jsstring;
}.
End StringsQuery.

(** The error texts of the handlers. *)
Definition msg_missing_value : string :=
  "Bad Request: Missing " ++ dquote ++ "value" ++ dquote ++ " field".
Definition msg_invalid_type : string :=
  "Unprocessable Entity: Invalid data type for " ++ dquote ++ "value" ++ dquote
  ++ " (must be string)".
Definition msg_conflict : string := "Conflict: String already exists in the system".
Definition msg_bad_query : string := "Bad Request : Unable to parse natural language query".
Definition msg_conflicting_filters : string :=
  "Unprocessable Entity: Query parsed but resulted in conflicting filters".
Definition msg_not_found : string := "Not Found: String does not exist in the system".
Definition msg_invalid_param (name : string) : string :=
  "Bad Request: Invalid query parameter value for " ++ name.
Definition msg_single_character : string :=
  "Bad Request: contains_character must be a single character".

(** A handler that returns early: [inl] is the response already sent. *)
Definition and_then {A B} (m : response + A) (k : A → response + B) : response + B :=
  match m with
  | inl r => inl r
  | inr a => k a
  end.

Notation "m '|>' k" := (and_then m k) (at level 50, left associativity, only parsing).

Definition sent {A} (m : response + A) (k : A → response) : response :=
  match m with
  | inl r => r
  | inr a => k a
  end.

(** The predicates the two filtering routes apply to a stored record. *)
Definition has_is_palindrome (v : bool) (s : StoredString.t) : bool :=
  Bool.eqb (StringProperties.is_palindrome (StoredString.properties s)) v.
Definition has_min_length (v : number) (s : StoredString.t) : bool :=
  number_ge (number_of_nat (StringProperties.length (StoredString.properties s))) v.
Definition has_max_length (v : number) (s : StoredString.t) : bool :=
  number_le (number_of_nat (StringProperties.length (StoredString.properties s))) v.
Definition has_word_count (v : number) (s : StoredString.t) : bool :=
  number_strict_eq (number_of_nat (StringProperties.word_count (StoredString.properties s))) v.
Definition has_character (v : jsstring) (s : StoredString.t) : bool :=
  includes (StoredString.value s) v.

(** ** [GET /strings] *)

(** [filteredStrings] and [filtersApplied] between two filter blocks. *)
Abbreviation filter_state := (list StoredString.t * FiltersApplied.t)%type.

Definition bad_request (error : string) : response := Response 400 (ErrorBody error).

Definition by_is_palindrome (param : option jsstring) (st : filter_state)
  : response + filter_state :=
  match param with
  | None => inr st
  | Some raw =>
      let isPalindrome := bool_decide (raw = lit "true") in
      inr (List.filter (has_is_palindrome isPalindrome) st.1,
           FiltersApplied.set_is_palindrome isPalindrome st.2)
  end.

Definition by_min_length (param : option jsstring) (st : filter_state)
  : response + filter_state :=
  match param with
  | None => inr st
  | Some raw =>
      let minLength := parseInt raw in
      if isNaN minLength then inl (bad_request (msg_invalid_param "min_length"))
      else inr (List.filter (has_min_length minLength) st.1,
                FiltersApplied.set_min_length minLength st.2)
  end.

Definition by_max_length (param : option jsstring) (st : filter_state)
  : response + filter_state :=
  match param with
  | None => inr st
  | Some raw =>
      let maxLength := parseInt raw in
      if isNaN maxLength then inl (bad_request (msg_invalid_param "max_length"))
      else inr (List.filter (has_max_length maxLength) st.1,
                FiltersApplied.set_max_length maxLength st.2)
  end.

Definition by_word_count (param : option jsstring) (st : filter_state)
  : response + filter_state :=
  match param with
  | None => inr st
  | Some raw =>
      let wordCount := parseInt raw in
      if isNaN wordCount then inl (bad_request (msg_invalid_param "word_count"))
      else inr (List.filter (has_word_count wordCount) st.1,
                FiltersApplied.set_word_count wordCount st.2)
  end.

Definition by_contains_character (param : option jsstring) (st : filter_state)
  : response + filter_state :=
  match param with
  | None => inr st
  | Some containsCharacter =>
      if negb (List.length containsCharacter =? 1)%nat
      then inl (bad_request msg_single_character)
      else inr (List.filter (has_character containsCharacter) st.1,
                FiltersApplied.set_contains_character containsCharacter st.2)
  end.

Definition get_strings (stringStore : Store) (query : StringsQuery.t) : response :=
  sent (inr (Map_values stringStore, FiltersApplied.empty)
        |> by_is_palindrome (StringsQuery.is_palindrome query)
        |> by_min_length (StringsQuery.min_length query)
        |> by_max_length (StringsQuery.max_length query)
        |> by_word_count (StringsQuery.word_count query)
        |> by_contains_character (StringsQuery.contains_character query))
    (λ '(filteredStrings, filtersApplied),
       Response 200
         (ListBody filteredStrings (List.length filteredStrings)
            (if FiltersApplied.has_keys filtersApplied
             then Some filtersApplied else None))).

(** ** [GET /strings/filter-by-natural-language] *)

Fixpoint strip_prefix (pat s : jsstring) : option jsstring :=
  match pat, s with
  | [], _ => Some s
  | p :: pat', u :: s' => if p =? u then strip_prefix pat' s' else None
  | _ :: _, [] => None
  end.

(** [/longer than (\d+) characters/] tried at the start of [s]: the digits
    of the group when it matches there.  [\d+] takes every digit that
    follows, and giving some back cannot help: a digit is not a space. *)
Definition longer_than_at (s : jsstring) : option jsstring :=
  match strip_prefix (lit "longer than ") s with
  | Some rest =>
      match take_digits rest with
      | [] => None
      | ds => if starts_with (lit " characters") (drop_digits rest) then Some ds else None
      end
  | None => None
  end.

(** [lowerQuery.match(/longer than (\d+) characters/)]: [match[1]] of the
    leftmost match, if there is one. *)
Fixpoint match_longer_than (s : jsstring) : option jsstring :=
  match longer_than_at s with
  | Some ds => Some ds
  | None =>
      match s with
      | [] => None
      | _ :: s' => match_longer_than s'
      end
  end.

(** The rules that build [parsedFilters] from the lower-cased query. *)
Definition parse_filters (lowerQuery : jsstring) : ParsedFilters.t :=
  let parsedFilters := ParsedFilters.empty in
  let parsedFilters :=
    if includes lowerQuery (lit "single word")
    then ParsedFilters.set_word_count (Finite 1) parsedFilters else parsedFilters in
  let parsedFilters :=
    if includes lowerQuery (lit "palindromic")
       && negb (includes lowerQuery (lit "not palindromic"))
    then ParsedFilters.set_is_palindrome true parsedFilters else parsedFilters in
  let parsedFilters :=
    if includes lowerQuery (lit "not palindromic")
    then ParsedFilters.set_is_palindrome false parsedFilters else parsedFilters in
  let parsedFilters :=
    if includes lowerQuery (lit "first vowel")
    then ParsedFilters.set_contains_character (lit "a") parsedFilters else parsedFilters in
  let parsedFilters :=
    if includes lowerQuery (lit "letter z")
    then ParsedFilters.set_contains_character (lit "z") parsedFilters else parsedFilters in
  if includes lowerQuery (lit "longer than")
  then
    match match_longer_than lowerQuery with
    | Some (d :: ds) =>
        let minLength := number_add (parseInt (d :: ds)) (Finite 1) in
        ParsedFilters.set_min_length minLength parsedFilters
    | _ => parsedFilters
    end
  else parsedFilters.

(** The four [if (parsedFilters.x !== undefined)] blocks. *)
Definition apply_parsed_filters (parsedFilters : ParsedFilters.t)
    (all : list StoredString.t) : list StoredString.t :=
  let filteredStrings := all in
  let filteredStrings :=
    match ParsedFilters.word_count parsedFilters with
    | Some v => List.filter (has_word_count v) filteredStrings
    | None => filteredStrings
    end in
  let filteredStrings :=
    match ParsedFilters.is_palindrome parsedFilters with
    | Some v => List.filter (has_is_palindrome v) filteredStrings
    | None => filteredStrings
    end in
  let filteredStrings :=
    match ParsedFilters.min_length parsedFilters with
    | Some v => List.filter (has_min_length v) filteredStrings
    | None => filteredStrings
    end in
  match ParsedFilters.contains_character parsedFilters with
  | Some v => List.filter (has_character v) filteredStrings
  | None => filteredStrings
  end.

(** [parsedFilters.word_count === 1 && parsedFilters.is_palindrome === false]. *)
Definition conflicting (parsedFilters : ParsedFilters.t) : bool :=
  match ParsedFilters.word_count parsedFilters, ParsedFilters.is_palindrome parsedFilters with
  | Some v, Some false => number_strict_eq v (Finite 1)
  | _, _ => false
  end.

Section Handlers.
Context `{Runtime}.

Definition get_filter_by_natural_language (stringStore : Store) (query : qvalue)
  : response :=
  match query with
  | QString (u :: rest) =>
      let query := u :: rest in
      let lowerQuery := toLowerCase query in
      let parsedFilters := parse_filters lowerQuery in
      let filteredStrings := apply_parsed_filters parsedFilters (Map_values stringStore) in
      if conflicting parsedFilters
      then Response 422 (ErrorBody msg_conflicting_filters)
      else
        Response 200
          (InterpretedBody filteredStrings (List.length filteredStrings)
             (InterpretedQuery.mk query parsedFilters))
  | _ => bad_request msg_bad_query
  end.

(** ** [POST /strings] *)

Definition post_strings (stringStore : Store) (value : jsvalue) (now : Z)
  : Store * response :=
  match value with
  | JUndefined => (stringStore, bad_request msg_missing_value)
  | JString value =>
      let properties := analyzeString value in
      let id := StringProperties.sha256_hash properties in
      if Map_has stringStore id
      then (stringStore, Response 409 (ErrorBody msg_conflict))
      else
        let newString := StoredString.mk id value properties now in
        (Map_set stringStore id newString, Response 201 (RecordBody newString))
  | _ => (stringStore, Response 422 (ErrorBody msg_invalid_type))
  end.

(** ** [GET /strings/:stringValue] and [DELETE /strings/:stringValue] *)

Definition get_string (stringStore : Store) (stringValue : jsstring) : response :=
  match Map_get stringStore (sha256_hex stringValue) with
  | Some storedString => Response 200 (RecordBody storedString)
  | None => Response 404 (ErrorBody msg_not_found)
  end.

Definition delete_string (stringStore : Store) (stringValue : jsstring)
  : Store * response :=
  let hash := sha256_hex stringValue in
  if Map_has stringStore hash
  then (Map_delete stringStore hash, Response 204 NoBody)
  else (stringStore, Response 404 (ErrorBody msg_not_found)).
End Handlers.

(** ** A runtime to run the handlers on sample requests

    Lower-casing of the letters A to Z and, in place of the digest, the code
    units themselves.  It agrees with the JavaScript runtime's lower-casing
    on every sample string used below.  The general theorems are stated for
    an arbitrary [Runtime]. *)
Definition ascii_toLowerCase (s : jsstring) : jsstring :=
  map (λ u, if (0x41 <=? u) && (u <=? 0x5A) then u + 0x20 else u) s.

Definition sample_runtime : Runtime :=
  {| toLowerCase := ascii_toLowerCase;
     sha256_hex := λ s, s;
     toLowerCase_empty := eq_refl |}.

(** U+1F600 GRINNING FACE: one code point, the surrogate pair D83D DE00. *)
Definition grinning_face : jsstring := [0xD83D; 0xDE00].

(** What the iterator can yield: one code unit, or a surrogate pair. *)
Definition is_code_point (c : jsstring) : Prop :=
  (∃ u, c = [u]) ∨
  (∃ h l, c = [h; l] ∧ is_high_surrogate h = true ∧ is_low_surrogate l = true).

(** ** The pattern [longer than <N> characters], as the specification words it *)

(** [s] reads [pre], then "longer than ", the decimal numeral [ds], then
    " characters", then [post]. *)
Definition longer_than_pattern (pre ds post s : jsstring) : Prop :=
  s = pre ++ lit "longer than " ++ ds ++ lit " characters" ++ post
  ∧ ds ≠ [] ∧ forallb is_digit ds = true.

(** [ds] is the numeral of the leftmost place where the pattern occurs. *)
Definition first_numeral (s ds : jsstring) : Prop :=
  ∃ pre post, longer_than_pattern pre ds post s
    ∧ ∀ pre' ds' post', longer_than_pattern pre' ds' post' s →
        (List.length pre ≤ List.length pre')%nat.

(** ** The blocks of [GET /strings] *)


(** The four blocks that come before the [contains_character] block. *)
Definition first_four_blocks (stringStore : Store) (query : StringsQuery.t)
  : response + filter_state :=
  inr (Map_values stringStore, FiltersApplied.empty)
  |> by_is_palindrome (StringsQuery.is_palindrome query)
  |> by_min_length (StringsQuery.min_length query)
  |> by_max_length (StringsQuery.max_length query)
  |> by_word_count (StringsQuery.word_count query).

(** The response that ends [GET /strings]. *)
Definition list_response (st : filter_state) : response :=
  Response 200
    (ListBody st.1 (List.length st.1)
       (if FiltersApplied.has_keys st.2 then Some st.2 else None)).

(** ** Sample requests *)

Definition query_longer_than_5 : jsstring := lit "strings longer than 5 characters".
Definition query_conflicting : jsstring :=
  lit "find a single word that is not palindromic".

(** The store after posting the given values, one after the other, at
    times 0, 1, 2, ... *)
Definition store_of (values : list jsstring) : Store :=
  (fold_left
     (λ '(stringStore, now) value,
        ((post_strings (H := sample_runtime) stringStore (JString value) now).1, now + 1))
     values ([], 0)).1.

Definition record_of (value : jsstring) (now : Z) : StoredString.t :=
  StoredString.mk value value (analyzeString (H := sample_runtime) value) now.

(** ** What the analyzer is compared with *)

(** How often [c] occurs in a list of code points. *)
Definition occurrences (c : jsstring) (l : list jsstring) : nat :=
  List.length (List.filter (λ x, bool_decide (x = c)) l).

(** The number of maximal runs of units that are not white space;
    [after_ws] says that the unit before [s] was white space, or that [s]
    is the start of the string. *)
Fixpoint word_starts (after_ws : bool) (s : jsstring) : nat :=
  match s with
  | [] => 0
  | u :: rest =>
      if is_whitespace u then word_starts true rest
      else ((if after_ws then 1 else 0) + word_starts false rest)%nat
  end.

(** The pieces of [split] that the [filter] of [analyzeString] keeps. *)
Definition count_words (pieces : list jsstring) : nat :=
  List.length (List.filter (λ word, (0 <? List.length word)%nat) pieces).

(** ** The states of the store *)

(** What every entry of the store satisfies: its key is the record's [id],
    the [id] is the digest of the record's [value], and the [properties]
    are those of the [value]. *)
Definition record_ok `{Runtime} (entry : jsstring * StoredString.t) : Prop :=
  entry.1 = StoredString.id entry.2
  ∧ StoredString.id entry.2 = sha256_hex (StoredString.value entry.2)
  ∧ StoredString.properties entry.2 = analyzeString (StoredString.value entry.2).

Definition store_ok `{Runtime} (stringStore : Store) : Prop :=
  NoDup (map fst stringStore) ∧ Forall record_ok stringStore.

(** The stores the service can hold: it starts empty, and only
    [POST /strings] and [DELETE /strings/:stringValue] write to it. *)
Inductive reachable `{Runtime} : Store → Prop :=
| reachable_empty : reachable []
| reachable_post stringStore value now :
    reachable stringStore → reachable (post_strings stringStore value now).1
| reachable_delete stringStore stringValue :
    reachable stringStore → reachable (delete_string stringStore stringValue).1.

(** ** The filters of a request, read at once *)

(** A test that applies only when its parameter is present. *)
Definition when_present {A} (test : A → StoredString.t → bool) (v : option A)
    (s : StoredString.t) : bool :=
  match v with
  | Some a => test a s
  | None => true
  end.

(** A numeric parameter is accepted when [parseInt] does not give [NaN]. *)
Definition accepted_number (param : option jsstring) : bool :=
  match param with
  | Some raw => negb (isNaN (parseInt raw))
  | None => true
  end.

Definition accepted_character (param : option jsstring) : bool :=
  match param with
  | Some c => (List.length c =? 1)%nat
  | None => true
  end.

Definition accepted (query : StringsQuery.t) : bool :=
  accepted_number (StringsQuery.min_length query)
  && accepted_number (StringsQuery.max_length query)
  && accepted_number (StringsQuery.word_count query)
  && accepted_character (StringsQuery.contains_character query).

(** The values [GET /strings] reads from its parameters. *)
Definition read_filters (query : StringsQuery.t) : FiltersApplied.t :=
  FiltersApplied.mk
    ((λ raw, bool_decide (raw = lit "true")) <$> StringsQuery.is_palindrome query)
    (parseInt <$> StringsQuery.min_length query)
    (parseInt <$> StringsQuery.max_length query)
    (parseInt <$> StringsQuery.word_count query)
    (StringsQuery.contains_character query).

(** A record passes every filter that is present. *)
Definition passes (f : FiltersApplied.t) (s : StoredString.t) : bool :=
  when_present has_is_palindrome (FiltersApplied.is_palindrome f) s
  && when_present has_min_length (FiltersApplied.min_length f) s
  && when_present has_max_length (FiltersApplied.max_length f) s
  && when_present has_word_count (FiltersApplied.word_count f) s
  && when_present has_character (FiltersApplied.contains_character f) s.

(** The same for the filters the translator derives. *)
Definition passes_parsed (f : ParsedFilters.t) (s : StoredString.t) : bool :=
  when_present has_word_count (ParsedFilters.word_count f) s
  && when_present has_is_palindrome (ParsedFilters.is_palindrome f) s
  && when_present has_min_length (ParsedFilters.min_length f) s
  && when_present has_character (ParsedFilters.contains_character f) s.

(** Two sample stores and two of their records. *)
Definition zebra : jsstring := lit "zebra".
Definition apple : jsstring := lit "apple".
Definition store_zebra : Store := store_of [zebra].
Definition store_zebra_apple : Store := store_of [zebra; apple].

(** * Properties of the strings *)

Lemma join_rev_split_units (s : jsstring) : join (rev (split_units s)) = rev s.
Proof.
  unfold join, split_units. induction s as [|u s IH]; [done|].
  simpl. rewrite concat_app, IH. simpl. done.
Qed.

Lemma code_points_cons (u l : Z) (rest : jsstring) :
  code_points (u :: l :: rest) =
  if is_high_surrogate u && is_low_surrogate l
  then [u; l] :: code_points rest
  else [u] :: code_points (l :: rest).
Proof. reflexivity. Qed.

(** Induction on the way the iterator reads a string. *)
Lemma code_points_ind (P : jsstring → Prop) :
  P [] →
  (∀ u, P [u]) →
  (∀ u l rest, is_high_surrogate u && is_low_surrogate l = true →
     P rest → P (u :: l :: rest)) →
  (∀ u l rest, is_high_surrogate u && is_low_surrogate l = false →
     P (l :: rest) → P (u :: l :: rest)) →
  ∀ s, P s.
Proof.
  intros Hnil Hone Hpair Hunit s.
  assert (∀ n (s : jsstring), (List.length s < n)%nat → P s) as Hn.
  { clear s. induction n as [|n IH]; intros s Hs; [lia|].
    destruct s as [|u [|l rest]]; [done..|].
    destruct (is_high_surrogate u && is_low_surrogate l) eqn:Hp.
    - apply Hpair; [done|]. apply IH. cbn in Hs. lia.
    - apply Hunit; [done|]. apply IH. cbn in *. lia. }
  apply (Hn (S (List.length s))). lia.
Qed.

(** The iterator loses no code unit and adds none. *)
Lemma concat_code_points (s : jsstring) : concat (code_points s) = s.
Proof.
  induction s as [|u|u l rest Hp IH|u l rest Hp IH] using code_points_ind;
    [done..| |]; rewrite code_points_cons, Hp, concat_cons, IH; done.
Qed.

Lemma code_points_shape (s : jsstring) : Forall is_code_point (code_points s).
Proof.
  induction s as [|u|u l rest Hp IH|u l rest Hp IH] using code_points_ind.
  - constructor.
  - constructor; [left; eauto|constructor].
  - rewrite code_points_cons, Hp. apply andb_prop in Hp as [Hh Hl].
    constructor; [right; eauto|done].
  - rewrite code_points_cons, Hp. constructor; [left; eauto|done].
Qed.

(** A string with no surrogate is iterated unit by unit. *)
Lemma code_points_no_surrogate (s : jsstring) :
  forallb (λ u, negb (is_surrogate u)) s = true →
  code_points s = split_units s.
Proof.
  induction s as [|u s IH]; [done|].
  intros Hs. cbn [forallb] in Hs. apply andb_prop in Hs as [Hu Hs].
  specialize (IH Hs). destruct s as [|l rest]; [done|].
  rewrite code_points_cons.
  assert (is_high_surrogate u = false) as ->.
  { unfold is_surrogate, is_high_surrogate in *. lia. }
  cbn [andb]. rewrite IH. done.
Qed.

Lemma length_code_points_le (s : jsstring) :
  (List.length (code_points s) ≤ List.length s)%nat.
Proof.
  induction s as [|u|u l rest Hp IH|u l rest Hp IH] using code_points_ind;
    [done..| |]; rewrite code_points_cons, Hp, !length_cons in *; lia.
Qed.

(** * Properties of the frequency map *)

Lemma sum_values_insert (m : gmap jsstring nat) (c : jsstring) (n : nat) :
  m !! c = None → sum_values (<[c:=n]> m) = (n + sum_values m)%nat.
Proof.
  intros Hc. unfold sum_values.
  apply (map_fold_insert_L (λ (_ : jsstring) (n acc : nat), (n + acc)%nat)); [|done].
  intros. lia.
Qed.

Lemma sum_values_delete (m : gmap jsstring nat) (c : jsstring) (n : nat) :
  m !! c = Some n → sum_values m = (n + sum_values (delete c m))%nat.
Proof.
  intros Hc. unfold sum_values.
  apply (map_fold_delete_L (λ (_ : jsstring) (n acc : nat), (n + acc)%nat)); [|done].
  intros. lia.
Qed.

(** One turn of the loop adds one to the sum of the counts. *)
Lemma sum_values_count_char (m : gmap jsstring nat) (c : jsstring) :
  sum_values (count_char m c) = S (sum_values m).
Proof.
  unfold count_char. destruct (m !! c) as [n|] eqn:Hc; simpl default.
  - rewrite <-insert_delete_eq, sum_values_insert by apply lookup_delete_eq.
    rewrite (sum_values_delete m c n Hc). lia.
  - rewrite sum_values_insert by done. lia.
Qed.

Lemma sum_values_fold (l : list jsstring) (m : gmap jsstring nat) :
  sum_values (fold_left count_char l m) = (sum_values m + List.length l)%nat.
Proof.
  revert m. induction l as [|c l IH]; intros m; cbn [fold_left List.length]; [lia|].
  rewrite IH, sum_values_count_char. lia.
Qed.

Lemma dom_count_char_fold (l : list jsstring) (m : gmap jsstring nat) :
  dom (fold_left count_char l m) = dom m ∪ list_to_set l.
Proof.
  revert m. induction l as [|c l IH]; intros m; cbn [fold_left].
  - by rewrite list_to_set_nil, (right_id_L ∅ (∪)).
  - rewrite IH. unfold count_char.
    by rewrite dom_insert_L, list_to_set_cons, (comm_L (∪) {[c]}), (assoc_L (∪)).
Qed.

(** No count of the map is zero. *)
Lemma count_char_fold_positive (l : list jsstring) (m : gmap jsstring nat) :
  map_Forall (λ _ n, (0 < n)%nat) m →
  map_Forall (λ _ n, (0 < n)%nat) (fold_left count_char l m).
Proof.
  revert m. induction l as [|c l IH]; intros m Hm; cbn [fold_left]; [done|].
  apply IH. unfold count_char. apply map_Forall_insert_2; [lia|done].
Qed.

Section AnalyzerFacts.
Context `{Runtime}.

(** [length] is [value.length]: the number of UTF-16 code units. *)
Lemma analyzeString_length (value : jsstring) :
  StringProperties.length (analyzeString value) = List.length value.
Proof. reflexivity. Qed.

(** [is_palindrome] compares the code units of the lower-cased value with
    the same units in reverse order. *)
Lemma analyzeString_is_palindrome (value : jsstring) :
  StringProperties.is_palindrome (analyzeString value)
  = bool_decide (toLowerCase value = rev (toLowerCase value)).
Proof. cbn. by rewrite join_rev_split_units. Qed.

(** The keys of the frequency map are the code points of the value. *)
Lemma analyzeString_frequency_keys (value : jsstring) :
  dom (StringProperties.character_frequency_map (analyzeString value))
  = list_to_set (code_points value).
Proof. cbn. by rewrite dom_count_char_fold, dom_empty_L, (left_id_L ∅ (∪)). Qed.

Lemma analyzeString_frequency_keys_shape (value : jsstring) (c : jsstring) :
  is_Some (StringProperties.character_frequency_map (analyzeString value) !! c) →
  is_code_point c.
Proof.
  rewrite <-elem_of_dom, analyzeString_frequency_keys, elem_of_list_to_set.
  intros Hc. by eapply Forall_forall in Hc; [|apply code_points_shape].
Qed.

(** The counts add up to the number of code points of the value. *)
Lemma analyzeString_frequency_sum (value : jsstring) :
  sum_values (StringProperties.character_frequency_map (analyzeString value))
  = List.length (code_points value).
Proof. cbn. rewrite sum_values_fold. unfold sum_values. by rewrite map_fold_empty. Qed.

(** [unique_characters] is the number of keys of the frequency map. *)
Lemma analyzeString_unique_characters (value : jsstring) :
  StringProperties.unique_characters (analyzeString value)
  = size (StringProperties.character_frequency_map (analyzeString value)).
Proof.
  rewrite <-size_dom, analyzeString_frequency_keys. reflexivity.
Qed.

(** Where no surrogate occurs the two readings of the string agree, and
    the counts add up to [length]. *)
Lemma analyzeString_frequency_sum_no_surrogate (value : jsstring) :
  forallb (λ u, negb (is_surrogate u)) value = true →
  sum_values (StringProperties.character_frequency_map (analyzeString value))
  = StringProperties.length (analyzeString value).
Proof.
  intros Hv. rewrite analyzeString_frequency_sum, analyzeString_length.
  rewrite code_points_no_surrogate by done. apply length_map.
Qed.
End AnalyzerFacts.

(** * The Property Analyzer on particular strings *)

(** C1: the analyzer is claimed to read the value by code points for the
    length, the palindrome test and the frequency map.  On the one code
    point U+1F600 the frequency map does (its only key is the whole pair),
    but [length] is 2, the number of code units, and the palindrome test
    reverses the two units of the pair and answers [false], although a
    single code point read backwards is itself. *)
Theorem analyzeString_grinning_face :
  let properties := analyzeString (H := sample_runtime) grinning_face in
  code_points grinning_face = [grinning_face]
  ∧ StringProperties.length properties = 2%nat
  ∧ rev (code_points grinning_face) = code_points grinning_face
  ∧ StringProperties.is_palindrome properties = false
  ∧ StringProperties.character_frequency_map properties = {[ grinning_face := 1%nat ]}.
Proof. repeat split; vm_compute; reflexivity. Qed.

(** C2: the counts of the frequency map are claimed to add up to [length].
    On U+1F600 they add up to 1, the number of code points, while [length]
    is 2; [unique_characters] does equal the number of keys. *)
Theorem frequency_sum_grinning_face :
  let properties := analyzeString (H := sample_runtime) grinning_face in
  sum_values (StringProperties.character_frequency_map properties) = 1%nat
  ∧ StringProperties.length properties = 2%nat
  ∧ StringProperties.unique_characters properties = 1%nat
  ∧ size (StringProperties.character_frequency_map properties) = 1%nat.
Proof. repeat split; vm_compute; reflexivity. Qed.

(** C10: on the empty string the analyzer returns length 0, no word, no
    distinct character, an empty frequency map, and classifies it as a
    palindrome. *)
Theorem analyzeString_empty `{Runtime} :
  let properties := analyzeString [] in
  StringProperties.length properties = 0%nat
  ∧ StringProperties.word_count properties = 0%nat
  ∧ StringProperties.unique_characters properties = 0%nat
  ∧ StringProperties.character_frequency_map properties = ∅
  ∧ StringProperties.is_palindrome properties = true.
Proof.
  cbn zeta. unfold analyzeString.
  cbn [StringProperties.length StringProperties.word_count
         StringProperties.unique_characters StringProperties.character_frequency_map
         StringProperties.is_palindrome].
  rewrite toLowerCase_empty. repeat split.
Qed.

(** * Properties of the string searches *)

Lemma strip_prefix_Some (pat s rest : jsstring) :
  strip_prefix pat s = Some rest ↔ s = pat ++ rest.
Proof.
  revert s. induction pat as [|p pat IH]; intros s; cbn.
  - split; [by intros [= ->]|by intros ->].
  - destruct s as [|u s]; [split; [done|by intros [=]]|].
    destruct (Z.eqb_spec p u) as [->|Hne].
    + rewrite IH. split; [by intros ->|by intros [= ->]].
    + split; [done|]. intros [= -> _]. done.
Qed.

Lemma starts_with_true (pat s : jsstring) :
  starts_with pat s = true ↔ ∃ rest, s = pat ++ rest.
Proof.
  revert s. induction pat as [|p pat IH]; intros s; cbn.
  - split; [eauto|done].
  - destruct s as [|u s]; [split; [done|by intros [? [=]]]|].
    rewrite andb_true_iff, IH, Z.eqb_eq. split.
    + intros [-> [rest ->]]. eauto.
    + intros [rest [= -> ->]]. eauto.
Qed.

Lemma includes_true (s pat : jsstring) :
  includes s pat = true ↔ ∃ pre post, s = pre ++ pat ++ post.
Proof.
  induction s as [|u s IH]; cbn [includes]; rewrite orb_true_iff, starts_with_true.
  - split.
    + intros [[post Hs]|?]; [|done]. by exists [], post.
    + intros (pre & post & Hs). left. exists post.
      destruct pre; [done|discriminate].
  - rewrite IH. split.
    + intros [[post Hs]|(pre & post & ->)]; [by exists [], post|].
      by exists (u :: pre), post.
    + intros ([|u' pre] & post & Hs); [left; by exists post|].
      injection Hs as -> ->. right. eauto.
Qed.

Lemma includes_false (s pat : jsstring) :
  includes s pat = false ↔ ∀ pre post, s ≠ pre ++ pat ++ post.
Proof.
  rewrite <-not_true_iff_false, includes_true. split.
  - intros Hn pre post Hs. apply Hn. eauto.
  - intros Hn (pre & post & Hs). by eapply Hn.
Qed.


(** What occurs in a string of white space is white space. *)
Lemma includes_blank (s pat : jsstring) :
  forallb is_whitespace s = true →
  includes s pat = true →
  forallb is_whitespace pat = true.
Proof.
  intros Hs (pre & post & ->)%includes_true.
  rewrite !forallb_app in Hs.
  apply andb_prop in Hs as [_ Hs]. by apply andb_prop in Hs as [Hs _].
Qed.

Lemma take_drop_digits (s : jsstring) : take_digits s ++ drop_digits s = s.
Proof.
  induction s as [|u s IH]; [done|]. cbn. destruct (is_digit u); [|done].
  cbn. by rewrite IH.
Qed.

Lemma take_digits_all (s : jsstring) : forallb is_digit (take_digits s) = true.
Proof.
  induction s as [|u s IH]; [done|]. cbn. destruct (is_digit u) eqn:Hu; [|done].
  cbn. by rewrite Hu, IH.
Qed.

(** A run of digits followed by something that is not a digit is read whole. *)
Lemma take_digits_app (ds rest : jsstring) :
  forallb is_digit ds = true →
  take_digits rest = [] →
  take_digits (ds ++ rest) = ds ∧ drop_digits (ds ++ rest) = rest.
Proof.
  intros Hds Hrest. induction ds as [|d ds IH]; cbn.
  - split; [done|]. destruct rest as [|u rest]; [done|].
    cbn in *. by destruct (is_digit u).
  - cbn in Hds. apply andb_prop in Hds as [-> Hds].
    destruct (IH Hds) as [-> ->]. done.
Qed.

Lemma digits_value_snoc (ds : jsstring) (d : Z) :
  digits_value (ds ++ [d]) = 10 * digits_value ds + (d - 0x30).
Proof. unfold digits_value. by rewrite fold_left_app. Qed.

Lemma digits_value_nonneg (ds : jsstring) :
  forallb is_digit ds = true → 0 ≤ digits_value ds.
Proof.
  induction ds as [|d ds IH] using rev_ind; [done|].
  rewrite forallb_app, digits_value_snoc. cbn.
  rewrite !andb_true_iff. intros (Hds & Hd & _).
  specialize (IH Hds). unfold is_digit in Hd. lia.
Qed.

(** ** Numbers *)


(** [parseInt] of a decimal numeral. *)
Lemma parseInt_digits (ds : jsstring) :
  ds ≠ [] → forallb is_digit ds = true →
  parseInt ds = round_nat_to_double (digits_value ds).
Proof.
  intros Hne Hds. destruct ds as [|d ds]; [done|].
  pose proof Hds as Hd. cbn in Hd. apply andb_prop in Hd as [Hd _].
  unfold parseInt.
  assert (trimStart (d :: ds) = d :: ds) as ->.
  { cbn. assert (is_whitespace d = false) as ->; [|done].
    unfold is_digit, is_whitespace in *. lia. }
  assert ((d =? 0x2D) = false) as -> by (unfold is_digit in Hd; lia).
  assert ((d =? 0x2B) = false) as -> by (unfold is_digit in Hd; lia).
  destruct (take_digits_app (d :: ds) [] Hds eq_refl) as [Ht _].
  rewrite app_nil_r in Ht. rewrite Ht. done.
Qed.

(** * The pattern [longer than <N> characters] *)

Lemma longer_than_at_Some (s ds : jsstring) :
  longer_than_at s = Some ds ↔ ∃ post, longer_than_pattern [] ds post s.
Proof.
  unfold longer_than_at, longer_than_pattern. split.
  - destruct (strip_prefix _ s) as [rest|] eqn:Hrest; [|done].
    apply strip_prefix_Some in Hrest as ->.
    pose proof (take_drop_digits rest) as Hsplit.
    pose proof (take_digits_all rest) as Hall.
    destruct (take_digits rest) as [|d ds'] eqn:Htake; [done|].
    destruct (starts_with _ (drop_digits rest)) eqn:Hpost; [|done].
    apply starts_with_true in Hpost as [post Hpost].
    intros [= <-]. exists post. rewrite <-Hpost, Hsplit. done.
  - intros (post & -> & Hne & Hds). cbn [app].
    assert (strip_prefix (lit "longer than ")
              (lit "longer than " ++ ds ++ lit " characters" ++ post)
            = Some (ds ++ lit " characters" ++ post)) as ->
      by by apply strip_prefix_Some.
    destruct (take_digits_app ds (lit " characters" ++ post) Hds eq_refl) as [-> ->].
    destruct ds as [|d ds]; [done|].
    assert (starts_with (lit " characters") (lit " characters" ++ post) = true) as ->
      by (apply starts_with_true; eauto).
    done.
Qed.

(** The search returns the numeral of the leftmost match, and nothing when
    the pattern occurs nowhere. *)
Lemma match_longer_than_spec (s : jsstring) :
  match match_longer_than s with
  | Some ds => first_numeral s ds
  | None => ∀ pre ds post, ¬ longer_than_pattern pre ds post s
  end.
Proof.
  induction s as [|u s IH]; cbn [match_longer_than].
  - destruct (longer_than_at []) as [ds|] eqn:Hat.
    + apply longer_than_at_Some in Hat as [post Hp].
      exists [], post. split; [done|]. intros. cbn. lia.
    + intros pre ds post (Hs & _). destruct pre; discriminate.
  - destruct (longer_than_at (u :: s)) as [ds|] eqn:Hat.
    + apply longer_than_at_Some in Hat as [post Hp].
      exists [], post. split; [done|]. intros. cbn. lia.
    + assert (∀ pre ds post, longer_than_pattern pre ds post (u :: s) →
                ∃ pre', pre = u :: pre' ∧ longer_than_pattern pre' ds post s) as Hshift.
      { intros [|u' pre] ds post Hp.
        - assert (longer_than_at (u :: s) = Some ds) as Hs
            by (apply longer_than_at_Some; eauto).
          congruence.
        - destruct Hp as (Hs & Hne & Hds). injection Hs as -> ->.
          exists pre. done. }
      destruct (match_longer_than s) as [ds|].
      * destruct IH as (pre & post & Hp & Hleft).
        exists (u :: pre), post. split.
        { destruct Hp as (-> & Hne & Hds). done. }
        intros pre' ds' post' Hp'.
        apply Hshift in Hp' as (pre'' & -> & Hp').
        apply Hleft in Hp'. cbn. lia.
      * intros pre ds post Hp. apply Hshift in Hp as (pre' & _ & Hp).
        by eapply IH.
Qed.




(** * The rules of the translator, field by field *)

(** Every rule either fires or not: a case for each test of [parse_filters]. *)
Ltac by_rule_cases lowerQuery :=
  unfold parse_filters;
  destruct (includes lowerQuery (lit "single word")),
    (includes lowerQuery (lit "palindromic")),
    (includes lowerQuery (lit "not palindromic")),
    (includes lowerQuery (lit "first vowel")),
    (includes lowerQuery (lit "letter z")),
    (includes lowerQuery (lit "longer than"));
  try destruct (match_longer_than lowerQuery) as [[|d ds]|];
  reflexivity.

Lemma parse_filters_word_count (lowerQuery : jsstring) :
  ParsedFilters.word_count (parse_filters lowerQuery)
  = if includes lowerQuery (lit "single word") then Some (Finite 1) else None.
Proof. by_rule_cases lowerQuery. Qed.


Lemma parse_filters_contains_character (lowerQuery : jsstring) :
  ParsedFilters.contains_character (parse_filters lowerQuery)
  = if includes lowerQuery (lit "letter z") then Some (lit "z")
    else if includes lowerQuery (lit "first vowel") then Some (lit "a")
    else None.
Proof. by_rule_cases lowerQuery. Qed.

Lemma parse_filters_min_length (lowerQuery : jsstring) :
  ParsedFilters.min_length (parse_filters lowerQuery)
  = if includes lowerQuery (lit "longer than")
    then match match_longer_than lowerQuery with
         | Some (d :: ds) => Some (number_add (parseInt (d :: ds)) (Finite 1))
         | _ => None
         end
    else None.
Proof. by_rule_cases lowerQuery. Qed.

(** The conflict test fires exactly on [word_count = 1] with
    [is_palindrome = false]. *)
Lemma conflicting_true (parsedFilters : ParsedFilters.t) :
  conflicting parsedFilters = true
  ↔ ParsedFilters.word_count parsedFilters = Some (Finite 1)
    ∧ ParsedFilters.is_palindrome parsedFilters = Some false.
Proof.
  unfold conflicting.
  destruct (ParsedFilters.word_count parsedFilters) as [v|],
    (ParsedFilters.is_palindrome parsedFilters) as [[]|];
    try (split; [done|by intros [? ?]]).
  destruct v as [|z| |]; cbn; try (split; [done|by intros [[=] ?]]).
  rewrite bool_decide_eq_true. split; [by intros ->|by intros [[= ->] _]].
Qed.


(** No rule fires on white space: every key phrase has a letter. *)
Lemma parse_filters_blank (lowerQuery : jsstring) :
  forallb is_whitespace lowerQuery = true →
  parse_filters lowerQuery = ParsedFilters.empty.
Proof.
  intros Hblank.
  assert (∀ phrase, forallb is_whitespace phrase = false →
                    includes lowerQuery phrase = false) as Hno.
  { intros phrase Hphrase. apply not_true_iff_false.
    intros Hin%(includes_blank _ _ Hblank). congruence. }
  unfold parse_filters. by rewrite !Hno.
Qed.

(** * The Natural-Language Filter Translator *)

Section Translator.
Context `{Runtime}.

(** What the handler answers to a non-empty string. *)
Lemma get_filter_by_natural_language_string (stringStore : Store) (query : jsstring) :
  query ≠ [] →
  get_filter_by_natural_language stringStore (QString query) =
    let parsedFilters := parse_filters (toLowerCase query) in
    let filteredStrings := apply_parsed_filters parsedFilters (Map_values stringStore) in
    if conflicting parsedFilters
    then Response 422 (ErrorBody msg_conflicting_filters)
    else Response 200
           (InterpretedBody filteredStrings (List.length filteredStrings)
              (InterpretedQuery.mk query parsedFilters)).
Proof. destruct query; [done|reflexivity]. Qed.

(** C3, as the code has it: a query string is refused as a bad query
    exactly when it is the empty string.  A non-empty string of white
    space is not refused; when its lower-cased text is white space too, no
    rule fires and it is answered with every record of the store and no
    parsed filter. *)
Theorem bad_query_iff_empty (stringStore : Store) (query : jsstring) :
  (get_filter_by_natural_language stringStore (QString query)
     = Response 400 (ErrorBody msg_bad_query) ↔ query = [])
  ∧ (status (get_filter_by_natural_language stringStore (QString query)) = 400
     ↔ query = [])
  ∧ (query ≠ [] →
     forallb is_whitespace query = true →
     status (get_filter_by_natural_language stringStore (QString query)) ≠ 400
     ∧ (forallb is_whitespace (toLowerCase query) = true →
        get_filter_by_natural_language stringStore (QString query)
        = Response 200
            (InterpretedBody (Map_values stringStore)
               (List.length (Map_values stringStore))
               (InterpretedQuery.mk query ParsedFilters.empty)))).
Proof.
  destruct query as [|u rest].
  - split; [done|]. split; done.
  - rewrite get_filter_by_natural_language_string by done. cbn zeta.
    split; [|split].
    + destruct (conflicting _); split; done.
    + destruct (conflicting _); split; done.
    + intros _ _. split; [by destruct (conflicting _)|].
      intros Hlower. by rewrite parse_filters_blank.
Qed.

(** C5: a non-empty query whose parsed filters hold both [word_count = 1]
    and [is_palindrome = false] is answered with the conflicting-filters
    error, whose body has no [data], whatever the store holds; every other
    non-empty query is answered with status 200. *)
Theorem conflicting_filters_rule (stringStore : Store) (query : jsstring) :
  query ≠ [] →
  let parsedFilters := parse_filters (toLowerCase query) in
  let response := get_filter_by_natural_language stringStore (QString query) in
  (ParsedFilters.word_count parsedFilters = Some (Finite 1)
     ∧ ParsedFilters.is_palindrome parsedFilters = Some false →
   response = Response 422 (ErrorBody msg_conflicting_filters)
     ∧ response_data response = None)
  ∧ (¬ (ParsedFilters.word_count parsedFilters = Some (Finite 1)
          ∧ ParsedFilters.is_palindrome parsedFilters = Some false) →
     status response = 200
       ∧ response_data response
         = Some (apply_parsed_filters parsedFilters (Map_values stringStore))).
Proof.
  intros Hq parsedFilters response. subst response.
  rewrite get_filter_by_natural_language_string by done. cbn zeta.
  fold parsedFilters. rewrite <-conflicting_true.
  destruct (conflicting parsedFilters); split; done.
Qed.


End Translator.

(** * The store *)

Lemma Map_get_set (m : Store) (k : jsstring) (v : StoredString.t) :
  Map_has m k = false → Map_get (Map_set m k v) k = Some v.
Proof.
  unfold Map_has. induction m as [|[k' v'] m IH]; cbn.
  - by rewrite bool_decide_eq_true_2.
  - destruct (bool_decide (k' = k)) eqn:Hk; [done|].
    cbn. rewrite Hk. done.
Qed.

Lemma Map_has_set (m : Store) (k : jsstring) (v : StoredString.t) :
  Map_has (Map_set m k v) k = true.
Proof.
  unfold Map_has. induction m as [|[k' v'] m IH]; cbn.
  - by rewrite bool_decide_eq_true_2.
  - destruct (bool_decide (k' = k)) eqn:Hk; cbn; by rewrite Hk.
Qed.

Section Store.
Context `{Runtime}.

(** C8: posting a value whose digest the store already holds is answered
    with the conflict error and leaves the store as it was; so posting the
    same value a second time is a conflict, and the record stored by the
    first post is still there, unchanged. *)
Theorem post_strings_conflict :
  (∀ stringStore value now,
     Map_has stringStore (sha256_hex value) = true →
     post_strings stringStore (JString value) now
     = (stringStore, Response 409 (ErrorBody msg_conflict)))
  ∧ (∀ stringStore value now now',
       let first := post_strings stringStore (JString value) now in
       post_strings first.1 (JString value) now'
       = (first.1, Response 409 (ErrorBody msg_conflict)))
  ∧ (∀ stringStore value now now',
       Map_has stringStore (sha256_hex value) = false →
       let first := post_strings stringStore (JString value) now in
       let second := post_strings first.1 (JString value) now' in
       first.2 = Response 201
                   (RecordBody (StoredString.mk (sha256_hex value) value
                                  (analyzeString value) now))
       ∧ Map_get second.1 (sha256_hex value)
         = Some (StoredString.mk (sha256_hex value) value (analyzeString value) now)).
Proof.
  assert (∀ stringStore value now,
     Map_has stringStore (sha256_hex value) = true →
     post_strings stringStore (JString value) now
     = (stringStore, Response 409 (ErrorBody msg_conflict))) as Hconflict.
  { intros stringStore value now Hhas. unfold post_strings.
    cbn [StringProperties.sha256_hash analyzeString]. by rewrite Hhas. }
  split; [done|split].
  - intros stringStore value now now' first. apply Hconflict.
    subst first. unfold post_strings.
    cbn [StringProperties.sha256_hash analyzeString].
    destruct (Map_has stringStore (sha256_hex value)) eqn:Hhas; cbn [fst]; [done|].
    apply Map_has_set.
  - intros stringStore value now now' Hfresh first second.
    assert (first = (Map_set stringStore (sha256_hex value)
                       (StoredString.mk (sha256_hex value) value (analyzeString value) now),
                     Response 201
                       (RecordBody (StoredString.mk (sha256_hex value) value
                                      (analyzeString value) now)))) as Hfirst.
    { subst first. unfold post_strings.
      cbn [StringProperties.sha256_hash analyzeString]. by rewrite Hfresh. }
    split; [by rewrite Hfirst|].
    subst second. rewrite Hconflict by (rewrite Hfirst; apply Map_has_set).
    rewrite Hfirst. cbn [fst]. by apply Map_get_set.
Qed.
End Store.

(** * The Structured Filter Engine *)

Lemma get_strings_blocks (stringStore : Store) (query : StringsQuery.t) :
  get_strings stringStore query
  = sent (first_four_blocks stringStore query
          |> by_contains_character (StringsQuery.contains_character query))
      list_response.
Proof.
  unfold get_strings, first_four_blocks.
  destruct (_ |> by_contains_character _) as [r|[fs fa]]; reflexivity.
Qed.

(** A block that answers early answers with status 400 and an error that
    names its parameter. *)
Lemma first_four_blocks_error (stringStore : Store) (query : StringsQuery.t) (r : response) :
  first_four_blocks stringStore query = inl r →
  ∃ name, r = bad_request (msg_invalid_param name)
          ∧ (name = "min_length" ∨ name = "max_length" ∨ name = "word_count")%string.
Proof.
  unfold first_four_blocks, and_then, by_is_palindrome, by_min_length,
    by_max_length, by_word_count.
  destruct (StringsQuery.is_palindrome query), (StringsQuery.min_length query) as [a|],
    (StringsQuery.max_length query) as [b|], (StringsQuery.word_count query) as [c|];
    repeat match goal with
           | |- context [isNaN ?x] => destruct (isNaN x)
           end;
    intros [= <-]; eauto 6.
Qed.



(** When [parseInt] finds no digit the request is refused, and the error
    names the parameter. *)
Lemma get_strings_min_length_NaN (stringStore : Store) (query : StringsQuery.t)
    (raw : jsstring) :
  StringsQuery.min_length query = Some raw →
  parseInt raw = NaN →
  get_strings stringStore query = bad_request (msg_invalid_param "min_length").
Proof.
  intros Hraw Hnan. unfold get_strings, by_min_length. rewrite Hraw, Hnan.
  by destruct (StringsQuery.is_palindrome query).
Qed.

(** C4: a present parameter that does not parse as its type is claimed to
    be refused.  [is_palindrome=yes] is not: it is read as [false] and the
    filter is applied.  Nor are [min_length=12abc], read as 12, and
    [min_length=-5], read as -5. *)
Theorem get_strings_unvalidated (stringStore : Store) :
  (let data := List.filter (has_is_palindrome false) (Map_values stringStore) in
   get_strings stringStore (StringsQuery.mk (Some (lit "yes")) None None None None)
   = Response 200
       (ListBody data (List.length data)
          (Some (FiltersApplied.mk (Some false) None None None None))))
  ∧ (let data := List.filter (has_min_length (Finite 12)) (Map_values stringStore) in
     get_strings stringStore (StringsQuery.mk None (Some (lit "12abc")) None None None)
     = Response 200
         (ListBody data (List.length data)
            (Some (FiltersApplied.mk None (Some (Finite 12)) None None None))))
  ∧ (let data := List.filter (has_min_length (Finite (-5))) (Map_values stringStore) in
     get_strings stringStore (StringsQuery.mk None (Some (lit "-5")) None None None)
     = Response 200
         (ListBody data (List.length data)
            (Some (FiltersApplied.mk None (Some (Finite (-5))) None None None)))).
Proof. repeat split. Qed.

(** * The handlers on sample requests *)

Example level_is_palindrome :
  StringProperties.is_palindrome (analyzeString (H := sample_runtime) (lit "Level")) = true
  ∧ StringProperties.is_palindrome (analyzeString (H := sample_runtime) (lit "Level One"))
    = false.
Proof. split; vm_compute; reflexivity. Qed.

Example hello_world_properties :
  let properties := analyzeString (H := sample_runtime) (lit "hello world") in
  StringProperties.length properties = 11%nat
  ∧ StringProperties.word_count properties = 2%nat
  ∧ StringProperties.unique_characters properties = 8%nat
  ∧ StringProperties.character_frequency_map properties !! lit "l" = Some 3%nat.
Proof. repeat split; vm_compute; reflexivity. Qed.

Example word_count_of_blanks :
  StringProperties.word_count (analyzeString (H := sample_runtime) (lit "  a  b ")) = 2%nat
  ∧ StringProperties.word_count (analyzeString (H := sample_runtime) (lit "   ")) = 0%nat.
Proof. split; vm_compute; reflexivity. Qed.

Example parseInt_samples :
  parseInt (lit "42") = Finite 42 ∧ parseInt (lit "  -7px") = Finite (-7)
  ∧ parseInt (lit "abc") = NaN ∧ parseInt (lit "") = NaN
  ∧ parseInt (lit "9007199254740993") = Finite 9007199254740992.
Proof. repeat split; vm_compute; reflexivity. Qed.

Example zebra_and_apple :
  let stringStore := store_of [lit "zebra"; lit "apple"] in
  response_data
    (get_strings stringStore (StringsQuery.mk None None None None (Some (lit "z"))))
  = Some [record_of (lit "zebra") 0]
  ∧ get_strings stringStore (StringsQuery.mk None None None None (Some (lit "zz")))
    = bad_request msg_single_character
  ∧ get_strings stringStore (StringsQuery.mk None None None None None)
    = Response 200
        (ListBody [record_of (lit "zebra") 0; record_of (lit "apple") 1] 2 None).
Proof. repeat split; vm_compute; reflexivity. Qed.

(** A code point outside the Basic Multilingual Plane is two code units:
    as [contains_character] it is refused. *)
Example contains_grinning_face :
  get_strings (store_of [lit "zebra"])
    (StringsQuery.mk None None None None (Some grinning_face))
  = bad_request msg_single_character.
Proof. vm_compute. reflexivity. Qed.

Example hi_and_hello_world :
  get_filter_by_natural_language (H := sample_runtime)
    (store_of [lit "hi"; lit "hello world"]) (QString query_longer_than_5)
  = Response 200
      (InterpretedBody [record_of (lit "hello world") 1] 1
         (InterpretedQuery.mk query_longer_than_5
            (ParsedFilters.mk None None None (Some (Finite 6))))).
Proof. vm_compute. reflexivity. Qed.

(** A query of three spaces is not refused: it is answered with every
    record of the store and no parsed filter. *)
Lemma whitespace_query_accepted :
  forallb is_whitespace (lit "   ") = true
  ∧ get_filter_by_natural_language (H := sample_runtime)
      (store_of [lit "hi"]) (QString (lit "   "))
    = Response 200
        (InterpretedBody [record_of (lit "hi") 0] 1
           (InterpretedQuery.mk (lit "   ") ParsedFilters.empty)).
Proof. split; vm_compute; reflexivity. Qed.

Lemma bad_query_iff_empty_witness :
  get_filter_by_natural_language (H := sample_runtime)
    (store_of [lit "hi"; lit "hello world"]) (QString [0x20; 0x09; 0xA0])
  = Response 200
      (InterpretedBody [record_of (lit "hi") 0; record_of (lit "hello world") 1] 2
         (InterpretedQuery.mk [0x20; 0x09; 0xA0] ParsedFilters.empty)).
Proof.
  refine (proj2 (proj2 (proj2 (bad_query_iff_empty (H := sample_runtime)
                                 (store_of [lit "hi"; lit "hello world"])
                                 [0x20; 0x09; 0xA0])) _ _) _).
  - vm_compute. discriminate.
  - vm_compute. reflexivity.
  - vm_compute. reflexivity.
Defined.


Lemma conflicting_filters_rule_witness :
  get_filter_by_natural_language (H := sample_runtime)
    (store_of [lit "hi"]) (QString query_conflicting)
  = Response 422 (ErrorBody msg_conflicting_filters).
Proof.
  refine (proj1 (proj1 (conflicting_filters_rule (H := sample_runtime)
                          (store_of [lit "hi"]) query_conflicting _) _)).
  - vm_compute. discriminate.
  - split; vm_compute; reflexivity.
Defined.



Lemma post_strings_conflict_witness :
  post_strings (H := sample_runtime) (store_of [lit "zebra"]) (JString (lit "zebra")) 5
  = (store_of [lit "zebra"], Response 409 (ErrorBody msg_conflict)).
Proof.
  apply (proj1 (post_strings_conflict (H := sample_runtime))).
  vm_compute. reflexivity.
Defined.



(** * More on the Property Analyzer *)

Lemma count_char_fold_lookup (l : list jsstring) (m : gmap jsstring nat) (c : jsstring) :
  fold_left count_char l m !! c
  = match occurrences c l with
    | O => m !! c
    | S k => Some (default 0 (m !! c) + S k)%nat
    end.
Proof.
  revert m. induction l as [|x l IH]; intros m; [done|].
  cbn [fold_left]. rewrite IH. unfold occurrences. cbn [List.filter].
  unfold count_char at 1 2. destruct (decide (x = c)) as [->|Hne].
  - rewrite bool_decide_eq_true_2 by done. cbn [List.length].
    rewrite lookup_insert_eq. cbn [default].
    destruct (List.length _); f_equal; simpl; lia.
  - rewrite bool_decide_eq_false_2 by done. by rewrite lookup_insert_ne.
Qed.

Section MoreAnalyzer.
Context `{Runtime}.

(** X1: the count stored under a key is the number of times that code
    point occurs in the value, and a code point that does not occur has no
    key. *)
Theorem frequency_counts_occurrences (value c : jsstring) :
  StringProperties.character_frequency_map (analyzeString value) !! c
  = match occurrences c (code_points value) with
    | O => None
    | S k => Some (S k)
    end.
Proof.
  cbn [analyzeString StringProperties.character_frequency_map].
  rewrite count_char_fold_lookup, lookup_empty. by destruct (occurrences _ _).
Qed.

(** X2: the counts of the frequency map add up to the number of code
    points of the value, which is at most [length]. *)
Theorem frequency_sum_code_points (value : jsstring) :
  sum_values (StringProperties.character_frequency_map (analyzeString value))
  = List.length (code_points value)
  ∧ (List.length (code_points value) ≤ StringProperties.length (analyzeString value))%nat.
Proof.
  split; [apply analyzeString_frequency_sum|].
  rewrite analyzeString_length. apply length_code_points_le.
Qed.

(** X3: for a value with no surrogate code unit the counts add up to
    [length], and every key is a single code unit of the value. *)
Theorem frequency_sum_length (value : jsstring) :
  forallb (λ u, negb (is_surrogate u)) value = true →
  sum_values (StringProperties.character_frequency_map (analyzeString value))
  = StringProperties.length (analyzeString value)
  ∧ ∀ c, is_Some (StringProperties.character_frequency_map (analyzeString value) !! c)
         ↔ ∃ u, c = [u] ∧ u ∈ value.
Proof.
  intros Hv. split; [by apply analyzeString_frequency_sum_no_surrogate|].
  intros c. rewrite <-elem_of_dom, analyzeString_frequency_keys, elem_of_list_to_set.
  rewrite code_points_no_surrogate by done. unfold split_units.
  rewrite list_elem_of_In, in_map_iff. setoid_rewrite <-list_elem_of_In.
  split; intros (u & Hu & Hin); eauto.
Qed.

(** X4: [unique_characters] is the number of keys of the frequency map,
    that is the number of distinct code points of the value, and is at
    most [length]. *)
Theorem unique_characters_keys (value : jsstring) :
  StringProperties.unique_characters (analyzeString value)
  = size (StringProperties.character_frequency_map (analyzeString value))
  ∧ StringProperties.unique_characters (analyzeString value)
    = List.length (remove_dups (code_points value))
  ∧ (StringProperties.unique_characters (analyzeString value)
     ≤ StringProperties.length (analyzeString value))%nat.
Proof.
  assert (StringProperties.unique_characters (analyzeString value)
          = List.length (remove_dups (code_points value))) as Hdups.
  { cbn [analyzeString StringProperties.unique_characters].
    rewrite <-(size_list_to_set (C := gset jsstring) (remove_dups (code_points value)))
      by apply NoDup_remove_dups.
    f_equal. apply set_eq. intros c.
    by rewrite !elem_of_list_to_set, elem_of_remove_dups. }
  split; [apply analyzeString_unique_characters|]. split; [done|].
  rewrite Hdups, analyzeString_length.
  etrans; [|apply length_code_points_le].
  generalize (code_points value). intros l.
  induction l as [|c l IH]; [done|]. cbn [remove_dups].
  destruct (decide_rel elem_of c l); cbn [List.length]; lia.
Qed.
End MoreAnalyzer.

Lemma frequency_sum_length_witness :
  sum_values (StringProperties.character_frequency_map
                (analyzeString (H := sample_runtime) (lit "hello world")))
  = StringProperties.length (analyzeString (H := sample_runtime) (lit "hello world")).
Proof.
  apply (proj1 (frequency_sum_length (H := sample_runtime) (lit "hello world") eq_refl)).
Defined.

(** ** Words *)

Lemma count_words_cons (piece : jsstring) (pieces : list jsstring) :
  count_words (piece :: pieces)
  = ((match piece with [] => 0 | _ => 1 end) + count_words pieces)%nat.
Proof. unfold count_words. by destruct piece. Qed.

(** What the scan of [split] has yet to deliver. *)
Lemma count_words_split_ws_go (in_run : bool) (cur s : jsstring) :
  (in_run = true → cur = []) →
  count_words (split_ws_go in_run cur s)
  = match cur with
    | [] => word_starts true s
    | _ => S (word_starts false s)
    end.
Proof.
  revert in_run cur. induction s as [|u s IH]; intros in_run cur Hrun.
  - cbn [split_ws_go]. rewrite count_words_cons. destruct cur as [|c cur]; [done|].
    destruct (rev (c :: cur)) eqn:Hrev; [|done].
    apply (f_equal (@List.length Z)) in Hrev. rewrite length_rev in Hrev. done.
  - cbn [split_ws_go word_starts]. destruct (is_whitespace u).
    + destruct in_run.
      * rewrite Hrun by done. by rewrite IH.
      * rewrite count_words_cons, IH by done.
        destruct cur as [|c cur]; [done|].
        destruct (rev (c :: cur)) eqn:Hrev; [|done].
        apply (f_equal (@List.length Z)) in Hrev. rewrite length_rev in Hrev. done.
    + rewrite IH by done. by destruct cur.
Qed.

Lemma word_starts_trimStart (s : jsstring) :
  word_starts true (trimStart s) = word_starts true s.
Proof.
  induction s as [|u s IH]; [done|]. cbn [trimStart].
  destruct (is_whitespace u) eqn:Hu; [|done]. cbn [word_starts]. by rewrite Hu.
Qed.

Lemma word_starts_blank (after_ws : bool) (w : jsstring) :
  forallb is_whitespace w = true → word_starts after_ws w = 0%nat.
Proof.
  revert after_ws. induction w as [|u w IH]; intros after_ws Hw; [done|].
  cbn in Hw. apply andb_prop in Hw as [Hu Hw]. cbn. rewrite Hu. by apply IH.
Qed.

Lemma word_starts_app_blank (after_ws : bool) (s w : jsstring) :
  forallb is_whitespace w = true →
  word_starts after_ws (s ++ w) = word_starts after_ws s.
Proof.
  intros Hw. revert after_ws. induction s as [|u s IH]; intros after_ws.
  - by apply word_starts_blank.
  - cbn. destruct (is_whitespace u); by rewrite IH.
Qed.

Lemma trimStart_split (s : jsstring) :
  ∃ w, s = w ++ trimStart s ∧ forallb is_whitespace w = true.
Proof.
  induction s as [|u s (w & Hs & Hw)]; [by exists []|].
  cbn [trimStart]. destruct (is_whitespace u) eqn:Hu.
  - exists (u :: w). split; [by rewrite Hs at 1|]. cbn. by rewrite Hu.
  - by exists [].
Qed.

Lemma word_starts_trim (s : jsstring) :
  word_starts true (trim s) = word_starts true s.
Proof.
  unfold trim. rewrite <-(word_starts_trimStart s).
  destruct (trimStart_split (rev (trimStart s))) as (w & Hs & Hw).
  apply (f_equal (@rev Z)) in Hs. rewrite rev_involutive, rev_app_distr in Hs.
  rewrite Hs at 2. rewrite word_starts_app_blank; [done|].
  apply forallb_forall. intros u Hu. apply in_rev in Hu.
  by eapply forallb_forall in Hw.
Qed.

Lemma word_starts_zero (s : jsstring) :
  word_starts true s = 0%nat ↔ forallb is_whitespace s = true.
Proof.
  induction s as [|u s IH]; [done|]. cbn.
  destruct (is_whitespace u); [done|]. split; [lia|done].
Qed.

Section Words.
Context `{Runtime}.

Lemma analyzeString_word_count (value : jsstring) :
  StringProperties.word_count (analyzeString value) = word_starts true value.
Proof.
  cbn [analyzeString StringProperties.word_count].
  fold (count_words (split_ws (trim value))). unfold split_ws.
  rewrite count_words_split_ws_go by done. apply word_starts_trim.
Qed.

(** X5: [word_count] is the number of maximal runs of code units that
    are not white space; white space before the first word and after the
    last one makes no difference. *)
Theorem word_count_runs (value : jsstring) :
  StringProperties.word_count (analyzeString value) = word_starts true value.
Proof. apply analyzeString_word_count. Qed.

(** X6: [word_count] is 0 exactly for the values made of white space only,
    the empty string among them. *)
Theorem word_count_zero_iff_blank (value : jsstring) :
  StringProperties.word_count (analyzeString value) = 0%nat
  ↔ forallb is_whitespace value = true.
Proof. rewrite analyzeString_word_count. apply word_starts_zero. Qed.

(** X7: white space added around a value leaves [word_count] as it was. *)
Theorem word_count_padding (before value after : jsstring) :
  forallb is_whitespace before = true →
  forallb is_whitespace after = true →
  StringProperties.word_count (analyzeString (before ++ value ++ after))
  = StringProperties.word_count (analyzeString value).
Proof.
  intros Hb Ha. rewrite !analyzeString_word_count.
  rewrite app_assoc, word_starts_app_blank by done.
  clear Ha. induction before as [|u before IH]; [done|].
  cbn in Hb. apply andb_prop in Hb as [Hu Hb]. cbn. rewrite Hu. by apply IH.
Qed.
End Words.

Lemma word_count_padding_witness :
  StringProperties.word_count
    (analyzeString (H := sample_runtime) (lit "  " ++ lit "hello world" ++ lit " "))
  = StringProperties.word_count (analyzeString (H := sample_runtime) (lit "hello world")).
Proof.
  apply (word_count_padding (H := sample_runtime) (lit "  ") (lit "hello world") (lit " "));
    reflexivity.
Defined.

(** * More on the store *)

Lemma Map_has_false (m : Store) (k : jsstring) :
  Map_has m k = false ↔ k ∉ map fst m.
Proof.
  unfold Map_has. induction m as [|[k' v'] m IH]; cbn.
  - split; [intros _; apply not_elem_of_nil|done].
  - rewrite not_elem_of_cons. destruct (decide (k' = k)) as [->|Hne].
    + rewrite bool_decide_eq_true_2 by done. split; [done|by intros [? _]].
    + rewrite bool_decide_eq_false_2 by done. rewrite IH. split; [done|by intros [_ ?]].
Qed.

Lemma Map_get_Some_In (m : Store) (k : jsstring) (v : StoredString.t) :
  Map_get m k = Some v → (k, v) ∈ m.
Proof.
  induction m as [|[k' v'] m IH]; cbn; [done|].
  destruct (decide (k' = k)) as [->|Hne].
  - rewrite bool_decide_eq_true_2 by done. intros [= ->]. apply list_elem_of_here.
  - rewrite bool_decide_eq_false_2 by done. intros Hm. apply list_elem_of_further. auto.
Qed.

Lemma Map_get_set_ne (m : Store) (k k' : jsstring) (v : StoredString.t) :
  k ≠ k' → Map_get (Map_set m k v) k' = Map_get m k'.
Proof.
  intros Hne. induction m as [|[k0 v0] m IH]; cbn.
  - by rewrite bool_decide_eq_false_2.
  - destruct (decide (k0 = k)) as [->|Hk].
    + rewrite bool_decide_eq_true_2 by done. cbn. by rewrite !bool_decide_eq_false_2.
    + rewrite (bool_decide_eq_false_2 (k0 = k)) by done. cbn. by rewrite IH.
Qed.

(** A new key goes last. *)
Lemma Map_set_fresh (m : Store) (k : jsstring) (v : StoredString.t) :
  Map_has m k = false → Map_set m k v = m ++ [(k, v)].
Proof.
  rewrite Map_has_false. induction m as [|[k0 v0] m IH]; cbn; [done|].
  rewrite not_elem_of_cons. intros [Hne Hm].
  rewrite bool_decide_eq_false_2 by done. by rewrite IH.
Qed.

Lemma Map_delete_absent (m : Store) (k : jsstring) :
  Map_has m k = false → Map_delete m k = m.
Proof.
  rewrite Map_has_false. induction m as [|[k0 v0] m IH]; cbn; [done|].
  rewrite not_elem_of_cons. intros [Hne Hm].
  rewrite bool_decide_eq_false_2 by done. by rewrite IH.
Qed.

Lemma Map_delete_keys (m : Store) (k k' : jsstring) :
  k' ∈ map fst (Map_delete m k) → k' ∈ map fst m.
Proof.
  induction m as [|[k0 v0] m IH]; cbn; [done|].
  destruct (bool_decide (k0 = k)); cbn.
  - apply list_elem_of_further.
  - rewrite !elem_of_cons. intros [->|Hin]; auto.
Qed.

Lemma Map_get_delete (m : Store) (k : jsstring) :
  NoDup (map fst m) → Map_get (Map_delete m k) k = None.
Proof.
  induction m as [|[k0 v0] m IH]; cbn; [done|].
  rewrite NoDup_cons. intros [Hk0 Hm].
  destruct (decide (k0 = k)) as [->|Hne].
  - rewrite bool_decide_eq_true_2 by done.
    apply Map_has_false in Hk0. unfold Map_has in Hk0.
    by destruct (Map_get m k).
  - rewrite bool_decide_eq_false_2 by done. cbn.
    rewrite bool_decide_eq_false_2 by done. auto.
Qed.

Lemma Map_get_delete_ne (m : Store) (k k' : jsstring) :
  k ≠ k' → Map_get (Map_delete m k) k' = Map_get m k'.
Proof.
  intros Hne. induction m as [|[k0 v0] m IH]; cbn; [done|].
  destruct (decide (k0 = k)) as [->|Hk].
  - rewrite bool_decide_eq_true_2 by done. by rewrite bool_decide_eq_false_2.
  - rewrite (bool_decide_eq_false_2 (k0 = k)) by done. cbn. by rewrite IH.
Qed.

Lemma Map_delete_set_fresh (m : Store) (k : jsstring) (v : StoredString.t) :
  Map_has m k = false → Map_delete (Map_set m k v) k = m.
Proof.
  rewrite Map_has_false. induction m as [|[k0 v0] m IH]; cbn.
  - by rewrite bool_decide_eq_true_2.
  - rewrite not_elem_of_cons. intros [Hne Hm].
    rewrite bool_decide_eq_false_2 by done. cbn.
    rewrite bool_decide_eq_false_2 by done. by rewrite IH.
Qed.

Lemma Map_delete_NoDup (m : Store) (k : jsstring) :
  NoDup (map fst m) → NoDup (map fst (Map_delete m k)).
Proof.
  induction m as [|[k0 v0] m IH]; cbn; [done|].
  rewrite NoDup_cons. intros [Hk0 Hm].
  destruct (bool_decide (k0 = k)); [done|]. cbn. apply NoDup_cons. split; [|auto].
  intros Hin. by apply Map_delete_keys in Hin.
Qed.

Lemma Map_delete_Forall (P : jsstring * StoredString.t → Prop) (m : Store) (k : jsstring) :
  Forall P m → Forall P (Map_delete m k).
Proof.
  induction 1 as [|[k0 v0] m Hx Hm IH]; cbn; [done|].
  destruct (bool_decide (k0 = k)); [done|]. by constructor.
Qed.

Section MoreStore.
Context `{Runtime}.

(** What [POST /strings] does with a string. *)
Lemma post_strings_string (stringStore : Store) (value : jsstring) (now : Z) :
  post_strings stringStore (JString value) now
  = if Map_has stringStore (sha256_hex value)
    then (stringStore, Response 409 (ErrorBody msg_conflict))
    else
      let newString :=
        StoredString.mk (sha256_hex value) value (analyzeString value) now in
      (Map_set stringStore (sha256_hex value) newString,
       Response 201 (RecordBody newString)).
Proof. reflexivity. Qed.

Lemma post_strings_store_ok (stringStore : Store) (value : jsvalue) (now : Z) :
  store_ok stringStore → store_ok (post_strings stringStore value now).1.
Proof.
  intros [Hdup Hall]. destruct value as [| | | |value|]; try done.
  rewrite post_strings_string.
  destruct (Map_has stringStore (sha256_hex value)) eqn:Hhas; [done|].
  cbn [fst]. rewrite Map_set_fresh by done. split.
  - rewrite map_app. cbn. apply NoDup_app. split; [done|]. split.
    + intros k Hk ->%list_elem_of_singleton. by apply Map_has_false in Hhas.
    + apply NoDup_singleton.
  - apply Forall_app. split; [done|]. by repeat constructor.
Qed.

Lemma delete_string_store_ok (stringStore : Store) (stringValue : jsstring) :
  store_ok stringStore → store_ok (delete_string stringStore stringValue).1.
Proof.
  intros [Hdup Hall]. unfold delete_string.
  destruct (Map_has stringStore (sha256_hex stringValue)); [|done].
  split; [by apply Map_delete_NoDup|by apply Map_delete_Forall].
Qed.

Lemma reachable_ok (stringStore : Store) : reachable stringStore → store_ok stringStore.
Proof.
  induction 1 as [|stringStore value now _ IH|stringStore stringValue _ IH].
  - split; constructor.
  - by apply post_strings_store_ok.
  - by apply delete_string_store_ok.
Qed.

(** X8: in every store the service can reach no digest is stored twice,
    and every record is filed under its [id], which is the digest of its
    [value], with the [properties] the analyzer computes for that [value]. *)
Theorem reachable_store_ok (stringStore : Store) :
  reachable stringStore →
  NoDup (map fst stringStore)
  ∧ ∀ key record, Map_get stringStore key = Some record →
      key = StoredString.id record
      ∧ StoredString.id record = sha256_hex (StoredString.value record)
      ∧ StoredString.properties record = analyzeString (StoredString.value record).
Proof.
  intros [Hdup Hall]%reachable_ok. split; [done|].
  intros key record Hget%Map_get_Some_In.
  rewrite Forall_forall in Hall. apply (Hall _ Hget).
Qed.

(** X9: after [POST /strings] with a string, whether it was created or was
    there already, [GET /strings/:stringValue] of that string answers 200;
    when the post created the record, the answer is that record. *)
Theorem post_then_get (stringStore : Store) (value : jsstring) (now : Z) :
  let after := (post_strings stringStore (JString value) now).1 in
  (∃ record, get_string after value = Response 200 (RecordBody record))
  ∧ (Map_has stringStore (sha256_hex value) = false →
     get_string after value
     = Response 200
         (RecordBody (StoredString.mk (sha256_hex value) value (analyzeString value) now))).
Proof.
  cbn zeta. rewrite post_strings_string. unfold get_string.
  destruct (Map_has stringStore (sha256_hex value)) eqn:Hhas; cbn [fst].
  - split; [|done]. unfold Map_has in Hhas.
    destruct (Map_get stringStore (sha256_hex value)); [eauto|done].
  - rewrite Map_get_set by done. eauto.
Qed.

(** X10: [POST /strings] answers 201 exactly for a string whose digest is
    not stored, 400 exactly for a missing [value], 409 for a stored digest
    and 422 for any other type; it changes the store only when it answers
    201, and then adds the new record after all the others. *)
Theorem post_strings_outcome (stringStore : Store) (value : jsvalue) (now : Z) :
  let result := post_strings stringStore value now in
  (status result.2 = 201
   ↔ ∃ s, value = JString s ∧ Map_has stringStore (sha256_hex s) = false)
  ∧ (status result.2 = 409
     ↔ ∃ s, value = JString s ∧ Map_has stringStore (sha256_hex s) = true)
  ∧ (status result.2 = 400 ↔ value = JUndefined)
  ∧ (status result.2 = 201 ∨ status result.2 = 409
     ∨ status result.2 = 400 ∨ status result.2 = 422)
  ∧ (status result.2 ≠ 201 → result.1 = stringStore)
  ∧ (∀ s, value = JString s → status result.2 = 201 →
       Map_values result.1
       = Map_values stringStore
         ++ [StoredString.mk (sha256_hex s) s (analyzeString s) now]).
Proof.
  cbn zeta. destruct value as [| | | |s|];
    try (cbn; repeat split; try done; try (by intros (? & [=] & _)); auto; fail).
  rewrite post_strings_string.
  destruct (Map_has stringStore (sha256_hex s)) eqn:Hhas; cbn [fst snd status].
  - repeat split; try done; try (by intros (? & [= <-] & ?); congruence); eauto.
  - repeat split; try done; try (by intros (? & [= <-] & ?); congruence); eauto.
    intros s' [= <-] _. rewrite Map_set_fresh by done.
    unfold Map_values. by rewrite map_app.
Qed.

(** X11: [POST /strings] leaves the answer of [GET /strings/:stringValue]
    for every string with another digest as it was. *)
Theorem post_strings_frame (stringStore : Store) (value other : jsstring) (now : Z) :
  sha256_hex other ≠ sha256_hex value →
  get_string (post_strings stringStore (JString value) now).1 other
  = get_string stringStore other.
Proof.
  intros Hne. rewrite post_strings_string. unfold get_string.
  destruct (Map_has stringStore (sha256_hex value)); cbn [fst]; [done|].
  by rewrite Map_get_set_ne.
Qed.

(** X12: [DELETE /strings/:stringValue] answers 404 exactly when [GET] of
    the same string does, and then leaves the store as it was; otherwise
    it answers 204 with no body. *)
Theorem delete_string_outcome (stringStore : Store) (stringValue : jsstring) :
  let result := delete_string stringStore stringValue in
  (status result.2 = 404 ↔ status (get_string stringStore stringValue) = 404)
  ∧ (status result.2 = 404 → result = (stringStore, Response 404 (ErrorBody msg_not_found)))
  ∧ (status result.2 ≠ 404 → result.2 = Response 204 NoBody).
Proof.
  cbn zeta. unfold delete_string, get_string, Map_has.
  destruct (Map_get stringStore (sha256_hex stringValue)); cbn; repeat split; done.
Qed.

(** X13: once a string is deleted from a store the service can reach, [GET]
    of it answers 404 and a second [DELETE] answers 404 and changes
    nothing. *)
Theorem delete_then_gone (stringStore : Store) (stringValue : jsstring) :
  reachable stringStore →
  let after := (delete_string stringStore stringValue).1 in
  get_string after stringValue = Response 404 (ErrorBody msg_not_found)
  ∧ delete_string after stringValue = (after, Response 404 (ErrorBody msg_not_found)).
Proof.
  intros [Hdup _]%reachable_ok. cbn zeta.
  assert (Map_get (delete_string stringStore stringValue).1 (sha256_hex stringValue) = None)
    as Hgone.
  { unfold delete_string.
    destruct (Map_has stringStore (sha256_hex stringValue)) eqn:Hhas; cbn [fst].
    - by apply Map_get_delete.
    - unfold Map_has in Hhas. by destruct (Map_get stringStore _). }
  unfold get_string. rewrite Hgone. split; [done|].
  unfold delete_string at 1. unfold Map_has. by rewrite Hgone.
Qed.

(** X14: [DELETE /strings/:stringValue] leaves the answer of [GET] for
    every string with another digest as it was. *)
Theorem delete_string_frame (stringStore : Store) (stringValue other : jsstring) :
  sha256_hex other ≠ sha256_hex stringValue →
  get_string (delete_string stringStore stringValue).1 other
  = get_string stringStore other.
Proof.
  intros Hne. unfold delete_string, get_string.
  destruct (Map_has stringStore (sha256_hex stringValue)); cbn [fst]; [|done].
  by rewrite Map_get_delete_ne.
Qed.

(** X15: creating a string and deleting it again gives back the store as
    it was before, in the same order. *)
Theorem post_then_delete (stringStore : Store) (value : jsstring) (now : Z) :
  Map_has stringStore (sha256_hex value) = false →
  delete_string (post_strings stringStore (JString value) now).1 value
  = (stringStore, Response 204 NoBody).
Proof.
  intros Hfresh. rewrite post_strings_string, Hfresh. cbn [fst].
  unfold delete_string. rewrite Map_has_set. by rewrite Map_delete_set_fresh.
Qed.

(** X16: the record [GET /strings/:stringValue] returns from a store the
    service can reach has the digest of the requested string as its [id],
    a [value] with that same digest, and the [properties] of its [value]. *)
Theorem get_string_record (stringStore : Store) (stringValue : jsstring)
    (record : StoredString.t) :
  reachable stringStore →
  get_string stringStore stringValue = Response 200 (RecordBody record) →
  StoredString.id record = sha256_hex stringValue
  ∧ sha256_hex (StoredString.value record) = sha256_hex stringValue
  ∧ StoredString.properties record = analyzeString (StoredString.value record).
Proof.
  intros [_ Hall]%reachable_ok. unfold get_string.
  destruct (Map_get stringStore (sha256_hex stringValue)) as [r|] eqn:Hget; [|done].
  intros [= ->]. apply Map_get_Some_In in Hget.
  rewrite Forall_forall in Hall. destruct (Hall _ Hget) as (Hkey & Hid & Hprops).
  cbn in Hkey, Hid, Hprops. split; [done|]. split; [congruence|done].
Qed.
End MoreStore.

(** * More on the Structured Filter Engine *)

Lemma filter_filter {A} (f g : A → bool) (l : list A) :
  List.filter g (List.filter f l) = List.filter (λ x, f x && g x) l.
Proof.
  induction l as [|x l IH]; [done|]. cbn.
  destruct (f x); cbn; [|done]. destruct (g x); by rewrite IH.
Qed.

Lemma filter_when_absent {A} (test : A → StoredString.t → bool) (l : list StoredString.t) :
  List.filter (when_present test None) l = l.
Proof. induction l as [|x l IH]; [done|]. cbn. by rewrite IH. Qed.

Lemma filter_none {A} (f : A → bool) (l : list A) :
  (∀ x, f x = false) → List.filter f l = [].
Proof. intros Hf. induction l as [|x l IH]; [done|]. cbn. by rewrite Hf. Qed.

Lemma filter_sublist {A} (f : A → bool) (l : list A) : List.filter f l `sublist_of` l.
Proof.
  induction l as [|x l IH]; [constructor|]. cbn.
  destruct (f x); by constructor.
Qed.

(** Five filters in a row are one filter by their conjunction. *)
Lemma filter_passes (f : FiltersApplied.t) (l : list StoredString.t) :
  List.filter (passes f) l
  = List.filter (when_present has_character (FiltersApplied.contains_character f))
      (List.filter (when_present has_word_count (FiltersApplied.word_count f))
         (List.filter (when_present has_max_length (FiltersApplied.max_length f))
            (List.filter (when_present has_min_length (FiltersApplied.min_length f))
               (List.filter
                  (when_present has_is_palindrome (FiltersApplied.is_palindrome f)) l)))).
Proof.
  rewrite !filter_filter. apply List.filter_ext. intros s. unfold passes.
  destruct (when_present has_is_palindrome _ s), (when_present has_min_length _ s),
    (when_present has_max_length _ s), (when_present has_word_count _ s),
    (when_present has_character _ s); reflexivity.
Qed.

(** What [GET /strings] answers when every parameter is accepted. *)
Lemma get_strings_accepted (stringStore : Store) (query : StringsQuery.t) :
  accepted query = true →
  get_strings stringStore query
  = let data := List.filter (passes (read_filters query)) (Map_values stringStore) in
    Response 200
      (ListBody data (List.length data)
         (if FiltersApplied.has_keys (read_filters query)
          then Some (read_filters query) else None)).
Proof.
  intros Hok. cbn zeta. rewrite filter_passes.
  destruct query as [p a b c d]. unfold accepted in Hok.
  cbn [StringsQuery.min_length StringsQuery.max_length StringsQuery.word_count
         StringsQuery.contains_character] in Hok.
  apply andb_prop in Hok as [Hok Hd]. apply andb_prop in Hok as [Hok Hc].
  apply andb_prop in Hok as [Ha Hb].
  unfold get_strings, and_then, sent, by_is_palindrome, by_min_length, by_max_length,
    by_word_count, by_contains_character, read_filters.
  cbn [StringsQuery.is_palindrome StringsQuery.min_length StringsQuery.max_length
         StringsQuery.word_count StringsQuery.contains_character
         FiltersApplied.is_palindrome FiltersApplied.min_length
         FiltersApplied.max_length FiltersApplied.word_count
         FiltersApplied.contains_character fst snd].
  destruct p as [p|], a as [a|], b as [b|], c as [c|], d as [d|];
    cbn [accepted_number accepted_character] in Ha, Hb, Hc, Hd;
    repeat match goal with
           | Hx : negb (isNaN ?x) = true |- _ =>
               apply negb_true_iff in Hx; rewrite Hx
           end;
    try rewrite Hd;
    cbn [fmap option_fmap option_map negb fst snd];
    rewrite ?filter_when_absent; reflexivity.
Qed.

(** What it answers otherwise. *)
Lemma get_strings_refused (stringStore : Store) (query : StringsQuery.t) :
  accepted query = false →
  ∃ error, get_strings stringStore query = bad_request error.
Proof.
  intros Hno. rewrite get_strings_blocks.
  destruct (first_four_blocks stringStore query) as [r|st] eqn:Hblocks.
  - apply first_four_blocks_error in Hblocks as (name & -> & _). eauto.
  - destruct query as [p a b c d]. unfold first_four_blocks, and_then, by_is_palindrome,
      by_min_length, by_max_length, by_word_count in Hblocks.
    unfold accepted in Hno.
    cbn [StringsQuery.is_palindrome StringsQuery.min_length StringsQuery.max_length
           StringsQuery.word_count StringsQuery.contains_character] in Hblocks, Hno |- *.
    destruct p as [p|], a as [a|], b as [b|], c as [c|];
      cbn [accepted_number andb] in Hno;
      repeat match type of Hblocks with
             | context [isNaN ?x] => destruct (isNaN x); try discriminate Hblocks
             end;
      cbn [negb andb] in Hno;
      (destruct d as [d|]; [|discriminate Hno]);
      cbn [accepted_character] in Hno; cbn; rewrite Hno; cbn; eauto.
Qed.

(** X17: when every parameter of [GET /strings] is accepted, the answer is
    200 with the records of the store, in store order, that pass every
    filter present, their number as [count], and the values read from the
    parameters as [filters_applied]. *)
Theorem get_strings_conjunction (stringStore : Store) (query : StringsQuery.t) :
  accepted query = true →
  get_strings stringStore query
  = let data := List.filter (passes (read_filters query)) (Map_values stringStore) in
    Response 200
      (ListBody data (List.length data)
         (if FiltersApplied.has_keys (read_filters query)
          then Some (read_filters query) else None)).
Proof. apply get_strings_accepted. Qed.

(** X18: [GET /strings] answers 400, with an error and no [data], exactly
    when [parseInt] gives [NaN] for a numeric parameter that is present or
    [contains_character] is present with a length other than 1; in every
    other case it answers 200. *)
Theorem get_strings_status (stringStore : Store) (query : StringsQuery.t) :
  status (get_strings stringStore query) = (if accepted query then 200 else 400)
  ∧ (accepted query = false →
     response_data (get_strings stringStore query) = None
     ∧ ∃ error, payload (get_strings stringStore query) = ErrorBody error).
Proof.
  destruct (accepted query) eqn:Hok.
  - rewrite get_strings_accepted by done. done.
  - destruct (get_strings_refused stringStore query Hok) as [error ->].
    split; [done|]. intros _. split; [done|]. by exists error.
Qed.

(** X19: in a 200 answer of [GET /strings], [filters_applied] is left out
    exactly when the request has none of the five parameters. *)
Theorem filters_applied_omitted (stringStore : Store) (query : StringsQuery.t)
    (data : list StoredString.t) (count : nat) (applied : option FiltersApplied.t) :
  get_strings stringStore query = Response 200 (ListBody data count applied) →
  (applied = None ↔ query = StringsQuery.mk None None None None None)
  ∧ (∀ f, applied = Some f → f = read_filters query).
Proof.
  destruct (accepted query) eqn:Hok.
  - rewrite get_strings_accepted by done. cbn zeta. intros [= _ _ <-].
    destruct query as [[p|] [a|] [b|] [c|] [d|]]; cbn; split;
      first [done | split; done | by intros ? [= <-]].
  - destruct (get_strings_refused stringStore query Hok) as [error ->]. done.
Qed.

(** X20: a [min_length] above the [max_length] is not refused: the answer
    is 200 with no record. *)
Theorem inverted_bounds_empty (stringStore : Store) (query : StringsQuery.t)
    (raw_min raw_max : jsstring) (lo hi : Z) :
  accepted query = true →
  StringsQuery.min_length query = Some raw_min →
  StringsQuery.max_length query = Some raw_max →
  parseInt raw_min = Finite lo →
  parseInt raw_max = Finite hi →
  hi < lo →
  status (get_strings stringStore query) = 200
  ∧ response_data (get_strings stringStore query) = Some [].
Proof.
  intros Hok Hmin Hmax Hlo Hhi Hlt. rewrite get_strings_accepted by done.
  cbn zeta. split; [done|]. unfold response_data. cbn [payload]. f_equal.
  apply filter_none. intros s. unfold passes, read_filters.
  cbn [FiltersApplied.min_length FiltersApplied.max_length].
  rewrite Hmin, Hmax. cbn [fmap option_fmap option_map when_present].
  rewrite Hlo, Hhi. unfold has_min_length, has_max_length, number_ge, number_of_nat.
  cbn [number_le].
  destruct (when_present has_is_palindrome _ s); [|done]. cbn [andb].
  destruct (Z.leb_spec lo (Z.of_nat (StringProperties.length (StoredString.properties s))));
    [|done].
  destruct (Z.leb_spec (Z.of_nat (StringProperties.length (StoredString.properties s))) hi);
    [lia|done].
Qed.

(** X21: the [data] of [GET /strings] is a part of the store: nothing is
    added to it and nothing is reordered. *)
Theorem get_strings_sublist (stringStore : Store) (query : StringsQuery.t)
    (data : list StoredString.t) :
  response_data (get_strings stringStore query) = Some data →
  data `sublist_of` Map_values stringStore.
Proof.
  destruct (accepted query) eqn:Hok.
  - rewrite get_strings_accepted by done. cbn zeta. intros [= <-]. apply filter_sublist.
  - destruct (get_strings_refused stringStore query Hok) as [error ->]. done.
Qed.

(** * More on the Natural-Language Filter Translator *)

Lemma apply_parsed_filters_passes (parsedFilters : ParsedFilters.t)
    (all : list StoredString.t) :
  apply_parsed_filters parsedFilters all = List.filter (passes_parsed parsedFilters) all.
Proof.
  transitivity
    (List.filter (when_present has_character (ParsedFilters.contains_character parsedFilters))
       (List.filter (when_present has_min_length (ParsedFilters.min_length parsedFilters))
          (List.filter
             (when_present has_is_palindrome (ParsedFilters.is_palindrome parsedFilters))
             (List.filter
                (when_present has_word_count (ParsedFilters.word_count parsedFilters))
                all)))).
  - unfold apply_parsed_filters.
    destruct (ParsedFilters.word_count parsedFilters),
      (ParsedFilters.is_palindrome parsedFilters),
      (ParsedFilters.min_length parsedFilters),
      (ParsedFilters.contains_character parsedFilters);
      by rewrite ?filter_when_absent.
  - rewrite !filter_filter. apply List.filter_ext. intros s. unfold passes_parsed.
    destruct (when_present has_word_count _ s), (when_present has_is_palindrome _ s),
      (when_present has_min_length _ s), (when_present has_character _ s); reflexivity.
Qed.

(** A string that contains "not palindromic" contains "palindromic". *)
Lemma includes_not_palindromic (s : jsstring) :
  includes s (lit "not palindromic") = true → includes s (lit "palindromic") = true.
Proof.
  rewrite !includes_true. intros (pre & post & ->).
  exists (pre ++ lit "not "), post. by rewrite <-app_assoc.
Qed.

(** The double nearest to a natural number is not negative. *)
Lemma round_nat_to_double_nonneg (n : Z) :
  0 ≤ n →
  round_nat_to_double n = PosInfinity
  ∨ ∃ z, round_nat_to_double n = Finite z ∧ 0 ≤ z ∧ (n < 2 ^ 53 → z = n)
         ∧ (2 ^ 53 ≤ n → 2 ^ 53 ≤ z).
Proof.
  intros Hn. unfold round_nat_to_double.
  destruct (Z.ltb_spec n (2 ^ 53)) as [Hlt|Hge].
  { right. exists n. split; [done|]. split; [done|]. split; [done|lia]. }
  set (e := Z.log2 n - 52).
  assert (53 ≤ Z.log2 n) as Hlog.
  { change 53 with (Z.log2 (2 ^ 53)). by apply Z.log2_le_mono. }
  assert (0 < e) as He by (unfold e; lia).
  assert (2 ^ 52 ≤ Z.shiftr n e) as Hq.
  { rewrite Z.shiftr_div_pow2 by lia.
    apply Z.div_le_lower_bound; [by apply Z.pow_pos_nonneg; lia|].
    rewrite Z.mul_comm, <-Z.pow_add_r by lia.
    replace (52 + e) with (Z.log2 n) by (unfold e; lia).
    apply Z.log2_spec. lia. }
  assert (2 ≤ 2 ^ e) as Hpow.
  { change 2 with (2 ^ 1) at 1. apply Z.pow_le_mono_r; lia. }
  set (q' := if _ : bool then Z.shiftr n e + 1 else Z.shiftr n e).
  assert (2 ^ 52 ≤ q') as Hq' by (unfold q'; destruct (_ || _); lia).
  destruct (2 ^ 1024 <=? q' * 2 ^ e); [by left|].
  right. exists (q' * 2 ^ e). split; [done|]. split; [nia|]. split; [lia|].
  intros _. change (2 ^ 53) with (2 ^ 52 * 2). nia.
Qed.

(** A query parameter is a non-empty string or it is not. *)
Lemma classic_query (query : qvalue) :
  (∃ u rest, query = QString (u :: rest)) ∨ ¬ (∃ u rest, query = QString (u :: rest)).
Proof.
  destruct query as [|[|u rest]| |]; [right|right|left; eauto|right|right];
    by intros (? & ? & [=]).
Qed.

Section MoreTranslator.
Context `{Runtime}.

(** X22: for a non-empty query string without the conflict, the translator
    answers 200 with the records of the store, in store order, that pass
    every parsed filter, their number as [count], and the query as it was
    sent, not lower-cased, as [original]. *)
Theorem natural_language_conjunction (stringStore : Store) (query : jsstring) :
  query ≠ [] →
  conflicting (parse_filters (toLowerCase query)) = false →
  get_filter_by_natural_language stringStore (QString query)
  = let parsedFilters := parse_filters (toLowerCase query) in
    let data := List.filter (passes_parsed parsedFilters) (Map_values stringStore) in
    Response 200
      (InterpretedBody data (List.length data) (InterpretedQuery.mk query parsedFilters)).
Proof.
  intros Hq Hno. rewrite get_filter_by_natural_language_string by done.
  cbn zeta. by rewrite Hno, apply_parsed_filters_passes.
Qed.

(** X23: a non-empty query in which none of the five key phrases occurs is
    answered with every record of the store and no parsed filter. *)
Theorem natural_language_no_rule (stringStore : Store) (query : jsstring) :
  query ≠ [] →
  includes (toLowerCase query) (lit "single word") = false →
  includes (toLowerCase query) (lit "palindromic") = false →
  includes (toLowerCase query) (lit "first vowel") = false →
  includes (toLowerCase query) (lit "letter z") = false →
  includes (toLowerCase query) (lit "longer than") = false →
  get_filter_by_natural_language stringStore (QString query)
  = Response 200
      (InterpretedBody (Map_values stringStore) (List.length (Map_values stringStore))
         (InterpretedQuery.mk query ParsedFilters.empty)).
Proof.
  intros Hq H1 H2 H3 H4 H5.
  assert (includes (toLowerCase query) (lit "not palindromic") = false) as H2'.
  { apply not_true_iff_false. intros Hin%includes_not_palindromic. congruence. }
  rewrite get_filter_by_natural_language_string by done. cbn zeta.
  assert (parse_filters (toLowerCase query) = ParsedFilters.empty) as ->.
  { unfold parse_filters. by rewrite H1, H2, H2', H3, H4, H5. }
  reflexivity.
Qed.

(** X24: when the lower-cased query contains "letter z" the translator
    looks for the character z, also when "first vowel" occurs as well;
    with "first vowel" alone it looks for the character a. *)
Theorem letter_z_overrides_first_vowel (query : jsstring) :
  (includes (toLowerCase query) (lit "letter z") = true →
   ParsedFilters.contains_character (parse_filters (toLowerCase query)) = Some (lit "z"))
  ∧ (includes (toLowerCase query) (lit "letter z") = false →
     includes (toLowerCase query) (lit "first vowel") = true →
     ParsedFilters.contains_character (parse_filters (toLowerCase query)) = Some (lit "a"))
  ∧ (includes (toLowerCase query) (lit "letter z") = false →
     includes (toLowerCase query) (lit "first vowel") = false →
     ParsedFilters.contains_character (parse_filters (toLowerCase query)) = None).
Proof.
  rewrite parse_filters_contains_character.
  split; [by intros ->|split; by intros -> ->].
Qed.

(** X25: a [min_length] the translator sets is never [NaN] and never
    below 1: it is an integer of at least 1 or positive infinity. *)
Theorem parsed_min_length_positive (query : jsstring) (v : number) :
  ParsedFilters.min_length (parse_filters (toLowerCase query)) = Some v →
  v = PosInfinity ∨ ∃ z, v = Finite z ∧ 1 ≤ z.
Proof.
  rewrite parse_filters_min_length.
  destruct (includes _ _); [|done].
  pose proof (match_longer_than_spec (toLowerCase query)) as Hspec.
  destruct (match_longer_than (toLowerCase query)) as [[|d ds]|]; [done| |done].
  destruct Hspec as (pre & post & (_ & Hne & Hds) & _).
  rewrite parseInt_digits by done. intros [= <-].
  pose proof (digits_value_nonneg _ Hds) as Hpos.
  destruct (round_nat_to_double_nonneg _ Hpos) as [->|(z & -> & Hz & _)]; [by left|].
  cbn [number_add]. unfold to_double.
  destruct (Z.ltb_spec (z + 1) 0); [lia|].
  destruct (Z.ltb_spec (z + 1) (2 ^ 53)) as [Hsmall|Hbig].
  - right. exists (z + 1). unfold round_nat_to_double.
    destruct (Z.ltb_spec (z + 1) (2 ^ 53)); [|lia]. split; [done|lia].
  - destruct (round_nat_to_double_nonneg (z + 1)) as [->|(z' & -> & _ & _ & Hz')];
      [lia|by left|].
    right. exists z'. split; [done|]. specialize (Hz' Hbig). lia.
Qed.

(** X26: the translator answers 400 exactly when the [query] parameter is
    missing, is not a string, or is the empty string; its other answers are
    200 and 422, and only a 200 answer has [data]. *)
Theorem natural_language_status (stringStore : Store) (query : qvalue) :
  let response := get_filter_by_natural_language stringStore query in
  (status response = 400 ↔ ¬ ∃ u rest, query = QString (u :: rest))
  ∧ (status response = 200 ∨ status response = 400 ∨ status response = 422)
  ∧ (is_Some (response_data response) ↔ status response = 200).
Proof.
  cbn zeta.
  assert (∀ q, (¬ ∃ u rest, q = QString (u :: rest)) →
               get_filter_by_natural_language stringStore q = bad_request msg_bad_query)
    as Hbad.
  { intros [|[|u rest]| |] Hq; try reflexivity. destruct Hq. eauto. }
  destruct (classic_query query) as [(u & rest & ->)|Hq].
  - rewrite get_filter_by_natural_language_string by done. cbn zeta.
    destruct (conflicting _); cbn.
    + split; [split; [done|intros Hn; destruct Hn; eauto]|].
      split; [auto|]. split; [by intros [? [=]]|done].
    + split; [split; [done|intros Hn; destruct Hn; eauto]|].
      split; [auto|]. split; [done|eauto].
  - rewrite Hbad by done. cbn.
    split; [done|]. split; [auto|]. split; [by intros [? [=]]|done].
Qed.

(** X27: the [data] of the translator is a part of the store: nothing is
    added to it and nothing is reordered. *)
Theorem natural_language_sublist (stringStore : Store) (query : qvalue)
    (data : list StoredString.t) :
  response_data (get_filter_by_natural_language stringStore query) = Some data →
  data `sublist_of` Map_values stringStore.
Proof.
  destruct query as [|[|u rest]| |]; try done.
  rewrite get_filter_by_natural_language_string by done. cbn zeta.
  destruct (conflicting _); [done|]. intros [= <-].
  rewrite apply_parsed_filters_passes. apply filter_sublist.
Qed.
End MoreTranslator.

(** * The palindrome test, position by position *)

Lemma rev_lookup {A} (l : list A) (i : nat) :
  (i < List.length l)%nat → rev l !! i = l !! (List.length l - S i)%nat.
Proof. rewrite rev_alt. apply reverse_lookup. Qed.

Lemma rev_eq_mirror {A} (l : list A) :
  l = rev l ↔ ∀ i, (i < List.length l)%nat → l !! i = l !! (List.length l - S i)%nat.
Proof.
  split.
  - intros Hl i Hi. rewrite Hl at 1. by apply rev_lookup.
  - intros Hl. apply list_eq. intros i.
    destruct (decide (i < List.length l)%nat) as [Hi|Hi].
    + rewrite rev_lookup by done. auto.
    + rewrite !(proj2 (lookup_ge_None _ _)); [done|rewrite length_rev; lia|lia].
Qed.

(** X28: [is_palindrome] holds exactly when every code unit of the
    lower-cased value equals the unit at the mirrored position; nothing is
    stripped, so white space and punctuation count. *)
Theorem palindrome_mirror `{Runtime} (value : jsstring) :
  StringProperties.is_palindrome (analyzeString value) = true
  ↔ ∀ i, (i < List.length (toLowerCase value))%nat →
         toLowerCase value !! i
         = toLowerCase value !! (List.length (toLowerCase value) - S i)%nat.
Proof.
  rewrite analyzeString_is_palindrome, bool_decide_eq_true. apply rev_eq_mirror.
Qed.

(** * The added theorems on sample requests *)

Lemma reachable_store_zebra_apple : reachable (H := sample_runtime) store_zebra_apple.
Proof.
  exact (reachable_post (H := sample_runtime) _ (JString apple) 1
           (reachable_post (H := sample_runtime) _ (JString zebra) 0 reachable_empty)).
Qed.

Lemma reachable_store_ok_witness : NoDup (map fst store_zebra_apple).
Proof.
  apply (proj1 (reachable_store_ok (H := sample_runtime) store_zebra_apple
                  reachable_store_zebra_apple)).
Defined.

Lemma post_then_get_witness :
  get_string (H := sample_runtime)
    (post_strings (H := sample_runtime) store_zebra (JString apple) 1).1 apple
  = Response 200 (RecordBody (record_of apple 1)).
Proof.
  apply (proj2 (post_then_get (H := sample_runtime) store_zebra apple 1)).
  vm_compute. reflexivity.
Defined.

Lemma post_strings_outcome_witness :
  Map_values (post_strings (H := sample_runtime) store_zebra (JString apple) 1).1
  = Map_values store_zebra ++ [record_of apple 1].
Proof.
  apply (proj2 (proj2 (proj2 (proj2 (proj2
           (post_strings_outcome (H := sample_runtime) store_zebra (JString apple) 1))))) apple);
    vm_compute; reflexivity.
Defined.

Lemma post_strings_frame_witness :
  get_string (H := sample_runtime)
    (post_strings (H := sample_runtime) store_zebra (JString apple) 1).1 zebra
  = get_string (H := sample_runtime) store_zebra zebra.
Proof.
  apply (post_strings_frame (H := sample_runtime)). vm_compute. discriminate.
Defined.

Lemma delete_string_outcome_witness :
  delete_string (H := sample_runtime) store_zebra apple
  = (store_zebra, Response 404 (ErrorBody msg_not_found)).
Proof.
  apply (proj1 (proj2 (delete_string_outcome (H := sample_runtime) store_zebra apple))).
  vm_compute. reflexivity.
Defined.

Lemma delete_then_gone_witness :
  get_string (H := sample_runtime)
    (delete_string (H := sample_runtime) store_zebra_apple zebra).1 zebra
  = Response 404 (ErrorBody msg_not_found).
Proof.
  apply (proj1 (delete_then_gone (H := sample_runtime) store_zebra_apple zebra
                  reachable_store_zebra_apple)).
Defined.

Lemma delete_string_frame_witness :
  get_string (H := sample_runtime)
    (delete_string (H := sample_runtime) store_zebra_apple zebra).1 apple
  = get_string (H := sample_runtime) store_zebra_apple apple.
Proof.
  apply (delete_string_frame (H := sample_runtime)). vm_compute. discriminate.
Defined.

Lemma post_then_delete_witness :
  delete_string (H := sample_runtime)
    (post_strings (H := sample_runtime) store_zebra (JString apple) 1).1 apple
  = (store_zebra, Response 204 NoBody).
Proof.
  apply (post_then_delete (H := sample_runtime)). vm_compute. reflexivity.
Defined.

Lemma get_string_record_witness :
  StoredString.id (record_of zebra 0) = sha256_hex (Runtime := sample_runtime) zebra.
Proof.
  apply (proj1 (get_string_record (H := sample_runtime) store_zebra_apple zebra
                  (record_of zebra 0) reachable_store_zebra_apple eq_refl)).
Defined.

Lemma get_strings_conjunction_witness :
  get_strings store_zebra_apple
    (StringsQuery.mk (Some (lit "false")) (Some (lit "5")) None (Some (lit "1"))
       (Some (lit "p")))
  = Response 200
      (ListBody [record_of apple 1] 1
         (Some (FiltersApplied.mk (Some false) (Some (Finite 5)) None (Some (Finite 1))
                  (Some (lit "p"))))).
Proof.
  apply (get_strings_conjunction store_zebra_apple
           (StringsQuery.mk (Some (lit "false")) (Some (lit "5")) None (Some (lit "1"))
              (Some (lit "p"))) eq_refl).
Defined.

Lemma get_strings_status_witness :
  response_data
    (get_strings store_zebra_apple
       (StringsQuery.mk None (Some (lit "five")) None None None)) = None.
Proof.
  apply (proj1 (proj2 (get_strings_status store_zebra_apple
                         (StringsQuery.mk None (Some (lit "five")) None None None))
                  eq_refl)).
Defined.

Lemma filters_applied_omitted_witness :
  (@None FiltersApplied.t = None
   ↔ StringsQuery.mk None None None None None = StringsQuery.mk None None None None None)
  ∧ (∀ f, None = Some f → f = read_filters (StringsQuery.mk None None None None None)).
Proof.
  apply (filters_applied_omitted store_zebra_apple
           (StringsQuery.mk None None None None None)
           [record_of zebra 0; record_of apple 1] 2 None eq_refl).
Defined.

Lemma inverted_bounds_empty_witness :
  status (get_strings store_zebra_apple
            (StringsQuery.mk None (Some (lit "10")) (Some (lit "3")) None None)) = 200
  ∧ response_data
      (get_strings store_zebra_apple
         (StringsQuery.mk None (Some (lit "10")) (Some (lit "3")) None None)) = Some [].
Proof.
  apply (inverted_bounds_empty store_zebra_apple
           (StringsQuery.mk None (Some (lit "10")) (Some (lit "3")) None None)
           (lit "10") (lit "3") 10 3 eq_refl eq_refl eq_refl eq_refl eq_refl eq_refl).
Defined.

Lemma get_strings_sublist_witness :
  [record_of apple 1] `sublist_of` Map_values store_zebra_apple.
Proof.
  apply (get_strings_sublist store_zebra_apple
           (StringsQuery.mk None None None None (Some (lit "p"))) [record_of apple 1]
           eq_refl).
Defined.

Lemma natural_language_conjunction_witness :
  get_filter_by_natural_language (H := sample_runtime) store_zebra_apple
    (QString (lit "Single word strings with the letter Z"))
  = Response 200
      (InterpretedBody [record_of zebra 0] 1
         (InterpretedQuery.mk (lit "Single word strings with the letter Z")
            (ParsedFilters.mk (Some (Finite 1)) None (Some (lit "z")) None))).
Proof.
  apply (natural_language_conjunction (H := sample_runtime) store_zebra_apple
           (lit "Single word strings with the letter Z")).
  - vm_compute. discriminate.
  - vm_compute. reflexivity.
Defined.

Lemma natural_language_no_rule_witness :
  get_filter_by_natural_language (H := sample_runtime) store_zebra_apple
    (QString (lit "everything"))
  = Response 200
      (InterpretedBody [record_of zebra 0; record_of apple 1] 2
         (InterpretedQuery.mk (lit "everything") ParsedFilters.empty)).
Proof.
  apply (natural_language_no_rule (H := sample_runtime) store_zebra_apple
           (lit "everything"));
    first [by vm_compute | vm_compute; reflexivity].
Defined.

Lemma letter_z_overrides_first_vowel_witness :
  ParsedFilters.contains_character
    (parse_filters
       (toLowerCase (Runtime := sample_runtime)
          (lit "strings with the first vowel and the letter z")))
  = Some (lit "z").
Proof.
  apply (proj1 (letter_z_overrides_first_vowel (H := sample_runtime)
                  (lit "strings with the first vowel and the letter z"))).
  vm_compute. reflexivity.
Defined.

Lemma parsed_min_length_positive_witness :
  Finite 6 = PosInfinity ∨ ∃ z, Finite 6 = Finite z ∧ 1 ≤ z.
Proof.
  apply (parsed_min_length_positive (H := sample_runtime) query_longer_than_5 (Finite 6)).
  vm_compute. reflexivity.
Defined.

Lemma natural_language_sublist_witness :
  [record_of zebra 0] `sublist_of` Map_values store_zebra_apple.
Proof.
  apply (natural_language_sublist (H := sample_runtime) store_zebra_apple
           (QString (lit "the letter z")) [record_of zebra 0]).
  vm_compute. reflexivity.
Defined.
